(** * Mortgage calculator: amortization engine and payoff projection

    A shallow embedding of [mortgage_calculator_new.py]:
    - [MortgageCalculatorEngine] ([calculate_monthly_payment],
      [calculate_amortization]), and
    - the numeric core of the GUI class [MortgageCalculator]
      ([validate_inputs], [calculate], [update_yearly_visualization]).

    Numbers.  Python [float]s are modelled by exact rationals [Q]: every
    arithmetic operation is the exact one, so rounding, overflow and
    underflow of binary64 are outside this model.  Python [int]s are [Z].
    What Python raises is kept: [/] by zero and a zero base raised to a
    negative power raise [ZeroDivisionError], and every function that can
    raise lives in the error monad [res].

    Rounding can make a call raise where the exact operation has a value
    (a divisor that rounds to zero, a power out of range).  The properties
    of a schedule or of a display are therefore stated of the calls that
    return, and module [Binary64] holds the engine once more on binary64
    floats, for the inputs on which the floats decide. *)

From Stdlib Require Import QArith Qpower Qround ZArith List Lia Lqa Bool.
From Stdlib Require Import Ascii.
From Stdlib Require Import Floats.

(* A decimal float literal denotes the nearest binary64 value, as it does in
   Python. *)
Set Warnings "-inexact-float".
Import ListNotations.

Open Scope Q_scope.

(** ** Python exceptions and the error monad *)

Inductive exn : Type :=
| ZeroDivisionError.

Inductive res (A : Type) : Type :=
| Ok (a : A)
| Raise (e : exn).

Arguments Ok {A} a.
Arguments Raise {A} e.

Definition bind {A B : Type} (m : res A) (k : A -> res B) : res B :=
  match m with
  | Ok a => k a
  | Raise e => Raise e
  end.

Notation "x <- m ;; k" := (bind m (fun x => k))
  (at level 61, m at next level, right associativity).

(** ** Python arithmetic on floats and ints *)

Module Py.

(** [x > y] on floats ([x < y] is [gtb y x]). *)
Definition gtb (x y : Q) : bool := negb (Qle_bool x y).

(** [x >= y] on floats. *)
Definition geb (x y : Q) : bool := Qle_bool y x.

(** [x / y]: raises on a zero divisor. *)
Definition div (x y : Q) : res Q :=
  if Qeq_bool y 0 then Raise ZeroDivisionError else Ok (x / y).

(** [x ** n] for a float base and an int exponent: a zero base cannot be
    raised to a negative power. *)
Definition pow (x : Q) (n : Z) : res Q :=
  if Qeq_bool x 0 && (n <? 0)%Z then Raise ZeroDivisionError else Ok (x ^ n).

(** [int(x)]: truncation toward zero. *)
Definition int (x : Q) : Z := Z.quot (Qnum x) (Zpos (Qden x)).

(** [range(n)] and [range(1, n + 1)]. *)
Definition range (n : Z) : list Z := map Z.of_nat (seq 0 (Z.to_nat n)).
Definition range1 (n : Z) : list Z := map Z.of_nat (seq 1 (Z.to_nat n)).

(** [len(l)]. *)
Definition len {A : Type} (l : list A) : Z := Z.of_nat (length l).

End Py.

(** ** MortgageCalculatorEngine *)

Module Engine.

(** The instance attributes set by [__init__]. *)
Record t : Type := mk {
  loan_amount : Q;
  interest_rate : Q;
  term_years : Z;
  extra_payment : Q;
  monthly_fee : Q
}.

Definition set_extra_payment (self : t) (v : Q) : t :=
  mk (loan_amount self) (interest_rate self) (term_years self) v
     (monthly_fee self).

(** One dict appended to [schedule]. *)
Record entry : Type := mk_entry {
  e_month : Z;
  e_payment : Q;
  e_principal : Q;
  e_interest : Q;
  e_balance : Q;
  e_extra_payment : Q;
  e_fee : Q
}.

(** The dict returned by [calculate_amortization]. *)
Record result : Type := mk_result {
  schedule : list entry;
  total_interest : Q;
  final_payment_month : Z
}.

(** [calculate_monthly_payment(self, monthly_rate, months)]. *)
Definition calculate_monthly_payment (self : t) (monthly_rate : Q) (months : Z)
  : res Q :=
  if Qeq_bool monthly_rate 0 then
    Py.div (loan_amount self) (inject_Z months)
  else
    p1 <- Py.pow (1 + monthly_rate) months ;;
    p2 <- Py.pow (1 + monthly_rate) months ;;
    Py.div (loan_amount self * monthly_rate * p1) (p2 - 1).

(** The variables the [for] loop of [calculate_amortization] updates:
    the locals [balance], [total_interest], [schedule] and the attribute
    [self.extra_payment]. *)
Record loop_state : Type := mk_loop {
  l_self : t;
  l_balance : Q;
  l_total_interest : Q;
  l_schedule : list entry
}.

(** One pass through the loop body for [month], entered with
    [balance > 0]. *)
Definition loop_body (payment monthly_rate : Q) (month : Z) (st : loop_state)
  : loop_state :=
  let self := l_self st in
  let balance := l_balance st in
  let interest := balance * monthly_rate in
  let principal := payment - interest in
  let total_payment := principal + extra_payment self in
  let clamp := Py.gtb total_payment balance in
  let total_payment := if clamp then balance else total_payment in
  let self := if clamp then set_extra_payment self 0 else self in
  let balance := balance - total_payment in
  let total_interest := l_total_interest st + interest in
  mk_loop self balance total_interest
    (l_schedule st ++
       [mk_entry month (total_payment + monthly_fee self) principal interest
          balance (extra_payment self) (monthly_fee self)]).

(** [for month in range(1, months + 1): if balance <= 0: break ...]. *)
Fixpoint loop (payment monthly_rate : Q) (months : list Z) (st : loop_state)
  : loop_state :=
  match months with
  | [] => st
  | month :: rest =>
      if Qle_bool (l_balance st) 0 then st
      else loop payment monthly_rate rest (loop_body payment monthly_rate month st)
  end.

(** [calculate_amortization(self)]: the returned dict and the engine as the
    call leaves it. *)
Definition calculate_amortization (self : t) : res (result * t) :=
  let monthly_rate := interest_rate self / 100 / 12 in
  let months := (term_years self * 12)%Z in
  payment <- calculate_monthly_payment self monthly_rate months ;;
  let st := loop payment monthly_rate (Py.range1 months)
              (mk_loop self (loan_amount self) 0 []) in
  Ok (mk_result (l_schedule st) (l_total_interest st)
        (Py.len (l_schedule st)),
      l_self st).

End Engine.

(** ** MortgageCalculator: validation, projection and yearly breakdown *)

Module Calculator.

Inductive mode : Type := Auto | Manual.

(** The entry fields as [get_float_value] reads them, and the down-payment
    mode.  Text that does not parse is rejected before any arithmetic and is
    not part of this model. *)
Record inputs : Type := mk_inputs {
  loan_seeking_var : Q;
  down_payment_var : Q;
  down_payment_mode : mode;
  interest_rate_var : Q;
  principal_payment_var : Q;
  extra_payment_var : Q;
  monthly_fee_var : Q
}.

(** [validate_inputs(self)]: [True] when no check shows an error. *)
Definition validate_inputs (i : inputs) : bool :=
  let loan_seeking := loan_seeking_var i in
  if Qle_bool loan_seeking 0 then false
  else if Py.gtb loan_seeking 100000000 then false
  else
    let down_payment := down_payment_var i in
    if Py.gtb 0 down_payment then false
    else if Py.geb down_payment loan_seeking then false
    else
      let interest_rate := interest_rate_var i in
      if Qle_bool interest_rate 0 then false
      else if Py.gtb interest_rate 30 then false
      else if Py.gtb 0 (principal_payment_var i) then false
      else if Py.gtb 0 (extra_payment_var i) then false
      else if Py.gtb 0 (monthly_fee_var i) then false
      else true.

(** The interest loop of the extra-payment branch:
    [for _ in range(months_with_extra)], on the pair
    [(remaining_balance, total_interest_with_extra)]. *)
Fixpoint interest_loop (monthly_rate total_monthly_payment : Q)
  (months : list Z) (st : Q * Q) : Q * Q :=
  match months with
  | [] => st
  | _ :: rest =>
      let remaining_balance := fst st in
      let interest := remaining_balance * monthly_rate in
      interest_loop monthly_rate total_monthly_payment rest
        (remaining_balance - total_monthly_payment, snd st + interest)
  end.

(** The lists [update_yearly_visualization] hands to the bar plot. *)
Record yearly : Type := mk_yearly {
  years_range : list Z;
  yearly_base_principal : list Q;
  yearly_extra_principal : list Q;
  yearly_interest : list Q;
  yearly_total : list Q
}.

(** [for _ in range(12): if remaining_balance <= 0: break ...], on the pair
    [(remaining_balance, yearly_interest_total)]. *)
Fixpoint month_loop (monthly_rate reduction : Q) (months : list Z)
  (st : Q * Q) : Q * Q :=
  match months with
  | [] => st
  | _ :: rest =>
      let remaining_balance := fst st in
      if Qle_bool remaining_balance 0 then st
      else
        let monthly_interest := remaining_balance * monthly_rate in
        month_loop monthly_rate reduction rest
          (remaining_balance - reduction, snd st + monthly_interest)
  end.

(** [for _ in years_range: ...], on the triple
    [(remaining_balance, yearly_interest, yearly_total)]. *)
Fixpoint year_loop (monthly_rate principal_payment extra_payment monthly_fee
  base_principal extra_principal : Q) (years : list Z)
  (st : Q * list Q * list Q) : Q * list Q * list Q :=
  match years with
  | [] => st
  | _ :: rest =>
      let remaining_balance := fst (fst st) in
      let inner :=
        month_loop monthly_rate (principal_payment + extra_payment)
          (Py.range 12) (remaining_balance, 0) in
      let yearly_interest_total := snd inner in
      year_loop monthly_rate principal_payment extra_payment monthly_fee
        base_principal extra_principal rest
        (fst inner,
         snd (fst st) ++ [yearly_interest_total],
         snd st ++ [base_principal + extra_principal + yearly_interest_total
                      + monthly_fee * 12])
  end.

(** [update_yearly_visualization(self, loan_amount, monthly_rate, years,
    principal_payment, extra_payment, monthly_fee)], up to the plotting
    calls. *)
Definition update_yearly_visualization
  (loan_amount monthly_rate : Q) (years : Z)
  (principal_payment extra_payment monthly_fee : Q) : yearly :=
  let years_range := if (0 <? years)%Z then Py.range1 years else Py.range1 1 in
  let base_principal := principal_payment * 12 in
  let extra_principal := extra_payment * 12 in
  let st := year_loop monthly_rate principal_payment extra_payment monthly_fee
              base_principal extra_principal years_range
              (loan_amount, [], []) in
  mk_yearly years_range
    (repeat base_principal (length years_range))
    (repeat extra_principal (length years_range))
    (snd (fst st)) (snd st).

(** What a completed [calculate] leaves behind: the numbers behind the
    display variables and [current_values], and the chart data. *)
Record display : Type := mk_display {
  d_loan_amount : Q;
  d_monthly_payment : Q;
  d_total_interest : Q;
  d_years_to_payoff : Z;
  d_months_to_payoff : Z;
  d_years_saved : Z;
  d_months_saved : Z;
  d_interest_saved : Q;
  d_chart : yearly
}.

(** How a call of [calculate] ends. *)
Inductive outcome : Type :=
| ValidationFailed                (* [validate_inputs] returned [False] *)
| DownPaymentError                (* the down-payment check inside [try] *)
| Calculated (d : display)        (* [return True] *)
| CalculationError (e : exn).     (* [except Exception]: error box, [False] *)

(** The block "Calculate payoff times" of [calculate]: the tuple
    [(years_to_payoff, months_to_payoff, years_saved, months_saved,
      interest_saved)]. *)
Definition payoff_times
  (loan_amount monthly_rate principal_payment extra_payment total_interest : Q)
  : res (Z * Z * Z * Z * Q) :=
  if Py.gtb extra_payment 0 then
    let total_monthly_payment := principal_payment + extra_payment in
    q <- Py.div loan_amount total_monthly_payment ;;
    let months_with_extra := Py.int q in
    let total_interest_with_extra :=
      snd (interest_loop monthly_rate total_monthly_payment
             (Py.range months_with_extra) (loan_amount, 0)) in
    let interest_saved := total_interest - total_interest_with_extra in
    let years_to_payoff := (months_with_extra / 12)%Z in
    let months_to_payoff := (months_with_extra mod 12)%Z in
    q' <- Py.div loan_amount principal_payment ;;
    let base_months := Py.int q' in
    let time_saved := (base_months - months_with_extra)%Z in
    let years_saved := (time_saved / 12)%Z in
    let months_saved := (time_saved mod 12)%Z in
    Ok (years_to_payoff, months_to_payoff, years_saved, months_saved,
        interest_saved)
  else
    q <- Py.div loan_amount (principal_payment * 12) ;;
    let years_to_payoff := Py.int q in
    Ok (years_to_payoff, 0%Z, 0%Z, 0%Z, 0).

(** The body of the [try] block of [calculate]; [None] is the early
    [return False] of the down-payment check. *)
Definition calculate_try (i : inputs) : res (option display) :=
  let loan_seeking := loan_seeking_var i in
  let down_payment :=
    match down_payment_mode i with
    | Auto => loan_seeking * (15 # 100)
    | Manual => down_payment_var i
    end in
  if Py.geb down_payment loan_seeking then Ok None
  else
    let loan_amount := loan_seeking - down_payment in
    let interest_rate := interest_rate_var i in
    let principal_payment := principal_payment_var i in
    let extra_payment := extra_payment_var i in
    let monthly_fee := monthly_fee_var i in
    let monthly_rate := interest_rate / 100 / 12 in
    p <- Py.pow (1 + monthly_rate) (-360) ;;
    base_monthly <- Py.div (loan_amount * monthly_rate) (1 - p) ;;
    let monthly_interest := loan_amount * monthly_rate in
    let total_monthly :=
      principal_payment + extra_payment + monthly_interest + monthly_fee in
    let total_interest := base_monthly * 360 - loan_amount in
    times <- payoff_times loan_amount monthly_rate principal_payment
               extra_payment total_interest ;;
    let years_to_payoff := fst (fst (fst (fst times))) in
    let chart :=
      update_yearly_visualization loan_amount monthly_rate years_to_payoff
        principal_payment extra_payment monthly_fee in
    Ok (Some (mk_display loan_amount total_monthly total_interest
                years_to_payoff (snd (fst (fst (fst times))))
                (snd (fst (fst times))) (snd (fst times)) (snd times) chart)).

(** [calculate(self)]. *)
Definition calculate (i : inputs) : outcome :=
  if negb (validate_inputs i) then ValidationFailed
  else
    match calculate_try i with
    | Ok None => DownPaymentError
    | Ok (Some d) => Calculated d
    | Raise e => CalculationError e
    end.



End Calculator.

(** ** Notions used to state the properties of a schedule *)

Module Sched.

Import Engine.

(** The months the loop of [calculate_amortization] ranges over, its
    monthly rate and its first state. *)
Definition months_of (self : t) : list Z := Py.range1 (term_years self * 12).
Definition rate_of (self : t) : Q := interest_rate self / 100 / 12.
Definition init (self : t) : loop_state := mk_loop self (loan_amount self) 0 [].

(** The state of the loop after its first [k] months. *)
Definition state_after (self : t) (payment : Q) (k : nat) : loop_state :=
  loop payment (rate_of self) (firstn k (months_of self)) (init self).

(** The clamp event in the month of index [k] (month [k + 1]): the month is
    run and its principal-plus-extra payment exceeds the balance. *)
Definition clamp_at (self : t) (k : nat) : bool :=
  match calculate_monthly_payment self (rate_of self) (term_years self * 12) with
  | Ok payment =>
      let st := state_after self payment k in
      (k <? length (months_of self))%nat
      && negb (Qle_bool (l_balance st) 0)
      && Py.gtb (payment - l_balance st * rate_of self
                 + extra_payment (l_self st)) (l_balance st)
  | Raise _ => false
  end.

(** A sequence of amounts never goes up. *)
Fixpoint non_increasing (l : list Q) : Prop :=
  match l with
  | [] => True
  | x :: tl =>
      match tl with
      | [] => True
      | y :: _ => y <= x /\ non_increasing tl
      end
  end.

(** The balance before the first month followed by the recorded ones. *)
Definition balances (self : t) (r : result) : list Q :=
  loan_amount self :: map e_balance (schedule r).

(** What holds of the loop state between months, for a valid engine: the
    balance stays between zero and the loan, the extra payment is not
    negative, and the recorded balances never go up, end with the current
    balance and are not negative. *)
Definition balance_inv (self : t) (st : loop_state) : Prop :=
  0 <= l_balance st /\ l_balance st <= loan_amount self /\
  0 <= extra_payment (l_self st) /\
  non_increasing (loan_amount self :: map e_balance (l_schedule st)) /\
  last (loan_amount self :: map e_balance (l_schedule st)) (loan_amount self)
  == l_balance st /\
  Forall (fun e => 0 <= e_balance e) (l_schedule st).

(** The balance after [k] months of annuity payments alone, in closed
    form: [P * (q^n - q^k) / (q^n - 1)] with [q = 1 + monthly_rate] and
    [n] the number of months of the term. *)
Definition closed_balance (self : t) (k : nat) : Q :=
  let q := 1 + rate_of self in
  let X := q ^ (term_years self * 12) in
  loan_amount self * (X - q ^ Z.of_nat k) / (X - 1).

(** The sum of the [principal] fields. *)
Definition sum_principal (l : list entry) : Q :=
  fold_right (fun e acc => e_principal e + acc) 0 l.

(** What holds after [k] months when there is no extra payment. *)
Definition annuity_inv (self : t) (k : nat) (st : loop_state) : Prop :=
  l_balance st == closed_balance self k /\
  extra_payment (l_self st) == 0 /\
  length (l_schedule st) = k /\
  sum_principal (l_schedule st) == loan_amount self - l_balance st.

(** The balance after [k] months of annuity payment plus the engine's
    extra payment, none of them clamped, in closed form. *)
Definition extra_balance (self : t) (k : nat) : Q :=
  closed_balance self k
  - extra_payment self * ((1 + rate_of self) ^ Z.of_nat k - 1) / rate_of self.

(** What holds after [k] months when no month has clamped yet. *)
Definition extra_inv (self : t) (k : nat) (st : loop_state) : Prop :=
  l_balance st == extra_balance self k /\
  l_self st = self /\
  length (l_schedule st) = k /\
  sum_principal (l_schedule st)
  == loan_amount self - l_balance st
     - inject_Z (Z.of_nat k) * extra_payment self.

(** By how much the month of an entry lowered the balance, given the
    balance before it. *)
Definition reduction (before : Q) (e : entry) : Q := before - e_balance e.


End Sched.

(** ** Notions used to state the properties of the projection *)

Module Proj.

Import Calculator.

(** The locals [loan_amount] and [monthly_rate] of [calculate]. *)
Definition loan_amount_of (i : inputs) : Q :=
  match down_payment_mode i with
  | Auto => loan_seeking_var i - loan_seeking_var i * (15 # 100)
  | Manual => loan_seeking_var i - down_payment_var i
  end.

Definition monthly_rate_of (i : inputs) : Q := interest_rate_var i / 100 / 12.

(** The same inputs with another extra payment. *)
Definition with_extra (i : inputs) (e : Q) : inputs :=
  mk_inputs (loan_seeking_var i) (down_payment_var i) (down_payment_mode i)
    (interest_rate_var i) (principal_payment_var i) e (monthly_fee_var i).

(** Total interest of a 360-month annuity on [L] at the monthly rate [mr]:
    360 payments of [L * mr / (1 - (1 + mr)^-360)] minus the loan. *)
Definition annuity_interest_360 (L mr : Q) : Q :=
  L * mr / (1 - / (1 + mr) ^ 360) * 360 - L.

(** What [calculate] displays for validated inputs once the payoff times
    are known. *)
Definition display_of (i : inputs) (times : Z * Z * Z * Z * Q) : display :=
  mk_display (loan_amount_of i)
    (principal_payment_var i + extra_payment_var i
     + loan_amount_of i * monthly_rate_of i + monthly_fee_var i)
    (annuity_interest_360 (loan_amount_of i) (monthly_rate_of i))
    (fst (fst (fst (fst times)))) (snd (fst (fst (fst times))))
    (snd (fst (fst times))) (snd (fst times)) (snd times)
    (update_yearly_visualization (loan_amount_of i) (monthly_rate_of i)
       (fst (fst (fst (fst times))))
       (principal_payment_var i) (extra_payment_var i) (monthly_fee_var i)).

(** Interest accrued over [m] months when the balance starts at [b] and
    goes down by the flat amount [t] every month. *)
Fixpoint flat_interest (b mr t : Q) (m : nat) : Q :=
  match m with
  | O => 0
  | S m' => b * mr + flat_interest (b - t) mr t m'
  end.

(** The flat-reduction simulation in the words of the specification:
    month by month, accrue [balance * mr], then take [t] off the balance,
    until the balance is [<= 0] or [cap] months have passed.  Returns the
    months counted and the interest accrued. *)
Fixpoint flat_simulation (b mr t : Q) (cap : nat) : Z * Q :=
  match cap with
  | O => (0%Z, 0)
  | S cap' =>
      if Qle_bool b 0 then (0%Z, 0)
      else
        let rest := flat_simulation (b - t) mr t cap' in
        ((1 + fst rest)%Z, b * mr + snd rest)
  end.



End Proj.

(** ** get_float_value: reading an entry field *)

(** Python [str] values are lists of bytes here: exact for ASCII text; the
    non-ASCII white space that [strip] also removes is outside the model. *)
Module Text.

Open Scope char_scope.

(** [str.isspace] on the ASCII range: tab to carriage return, the four
    separators 28 to 31, and the space. *)
Definition isspace (c : ascii) : bool :=
  let n := nat_of_ascii c in
  ((9 <=? n) && (n <=? 13) || (28 <=? n) && (n <=? 31) || (n =? 32))%nat.

Definition isdigit (c : ascii) : bool :=
  let n := nat_of_ascii c in ((48 <=? n) && (n <=? 57))%nat.

(** [s.replace('kr', '')]: every occurrence, left to right, without
    overlap. *)
Fixpoint replace_kr (s : list ascii) : list ascii :=
  match s with
  | [] => []
  | c1 :: tl =>
      match tl with
      | [] => [c1]
      | c2 :: tl' =>
          if Ascii.eqb c1 "k" && Ascii.eqb c2 "r" then replace_kr tl'
          else c1 :: replace_kr tl
      end
  end.

(** [s.replace(c, '')] for a single character [c]. *)
Definition remove_char (c : ascii) (s : list ascii) : list ascii :=
  filter (fun x => negb (Ascii.eqb x c)) s.

(** [s.replace(',', '.')]. *)
Definition comma_to_period (s : list ascii) : list ascii :=
  map (fun x => if Ascii.eqb x "," then "." else x) s.

(** [s.lstrip()] and [s.strip()]. *)
Fixpoint lstrip (s : list ascii) : list ascii :=
  match s with
  | [] => []
  | c :: tl => if isspace c then lstrip tl else s
  end.

Definition strip (s : list ascii) : list ascii :=
  rev (lstrip (rev (lstrip s))).

(** [s.count(c)] and [s.find(c)] ([-1] when [c] does not occur). *)
Definition count (c : ascii) (s : list ascii) : Z :=
  Z.of_nat (length (filter (Ascii.eqb c) s)).

Fixpoint find (c : ascii) (s : list ascii) : Z :=
  match s with
  | [] => (-1)%Z
  | x :: tl =>
      if Ascii.eqb x c then 0%Z
      else let i := find c tl in if (i <? 0)%Z then (-1)%Z else (i + 1)%Z
  end.

(** The slices [s[:n]] and [s[n:]] for [n >= 0]. *)
Definition upto (n : Z) (s : list ascii) : list ascii := firstn (Z.to_nat n) s.
Definition from (n : Z) (s : list ascii) : list ascii := skipn (Z.to_nat n) s.

(** The string [get_float_value] hands to [float]. *)
Definition cleaned (value_str : list ascii) : list ascii :=
  let cleaned_str := strip (remove_char "$" (replace_kr value_str)) in
  let cleaned_str := comma_to_period cleaned_str in
  if (1 <? count "." cleaned_str)%Z then
    let first_period := find "." cleaned_str in
    upto (first_period + 1) cleaned_str
    ++ remove_char "." (from (first_period + 1) cleaned_str)
  else cleaned_str.

Section Float.

(** Python's [float(s)], which is not part of the repository: [None] when
    it raises [ValueError]. *)
Variable float : list ascii -> option Q.

(** [get_float_value(self, value_str)]: [None] is the [ValueError] it
    raises again. *)
Definition get_float_value (value_str : list ascii) : option Q :=
  match cleaned value_str with
  | [] => Some 0
  | c :: tl => float (c :: tl)
  end.

End Float.

End Text.

(** ** Further notions on schedules and on the projection *)

Module Notion.

Import Engine.

(** The sum of the [interest] fields. *)
Definition sum_interest (l : list entry) : Q :=
  fold_right (fun e acc => e_interest e + acc) 0 l.

(** What the entries say was paid towards the loan: [payment] without the
    [fee], summed. *)
Definition sum_paid (l : list entry) : Q :=
  fold_right (fun e acc => (e_payment e - e_fee e) + acc) 0 l.

(** The balance the schedule ends with: the last recorded one, or the loan
    amount when nothing was recorded. *)
Definition final_balance (self : t) (r : result) : Q :=
  last (Sched.balances self r) (loan_amount self).

(** What the loop keeps whatever the engine holds: the interest total is
    the sum of the recorded interest, the payments without fee account for
    the fall of the balance, and the last recorded balance is the current
    one. *)
Definition ledger_inv (self : t) (st : loop_state) : Prop :=
  l_total_interest st == sum_interest (l_schedule st) /\
  sum_paid (l_schedule st) == loan_amount self - l_balance st /\
  last (loan_amount self :: map e_balance (l_schedule st)) (loan_amount self)
  == l_balance st.

(** The same inputs with another text in the down-payment field. *)
Definition with_down_payment (i : Calculator.inputs) (dp : Q)
  : Calculator.inputs :=
  Calculator.mk_inputs (Calculator.loan_seeking_var i) dp
    (Calculator.down_payment_mode i) (Calculator.interest_rate_var i)
    (Calculator.principal_payment_var i) (Calculator.extra_payment_var i)
    (Calculator.monthly_fee_var i).

End Notion.

(** ** MortgageCalculatorEngine on binary64 floats

    The engine once more, on the numbers Python computes with.  [+], [-],
    [*], [/] and the comparisons are the correctly rounded IEEE 754
    operations of binary64.  [float ** int] is decided by the interpreter
    itself when the exponent is 0 and when the base is 1.0 (both give 1.0);
    every other power is computed by the C library's [pow], which this
    development does not contain: a run that needs it, or an int too large
    to be an exact float, is [Unmodelled]. *)

Module Binary64.

Inductive run (A : Type) : Type :=
| Returns (a : A)
| Raises (e : exn)
| Unmodelled.

Arguments Returns {A} a.
Arguments Raises {A} e.
Arguments Unmodelled {A}.

Definition bind {A B : Type} (m : run A) (k : A -> run B) : run B :=
  match m with
  | Returns a => k a
  | Raises e => Raises e
  | Unmodelled => Unmodelled
  end.

Local Notation "x <~ m ;; k" := (bind m (fun x => k))
  (at level 61, m at next level, right associativity).

(** The ints every float represents exactly. *)
Definition exact (n : Z) : bool := (Z.abs n <? 2 ^ 53)%Z.

(** The float an int operand of a float operation is converted to. *)
Definition float_of_int (n : Z) : run float :=
  if exact n then
    Returns (if (n <? 0)%Z
             then PrimFloat.opp (PrimFloat.of_uint63 (Uint63.of_Z (- n)))
             else PrimFloat.of_uint63 (Uint63.of_Z n))
  else Unmodelled.

(** [x / y]: raises on a divisor equal to zero, of either sign. *)
Definition div (x y : float) : run float :=
  if PrimFloat.eqb y 0 then Raises ZeroDivisionError
  else Returns (PrimFloat.div x y).

(** [x ** n] for a float base and an int exponent. *)
Definition pow (x : float) (n : Z) : run float :=
  if exact n then
    if (n =? 0)%Z then Returns 1%float
    else if PrimFloat.eqb x 1 then Returns 1%float
    else Unmodelled
  else Unmodelled.

(** The instance attributes set by [__init__]. *)
Record t : Type := mk {
  loan_amount : float;
  interest_rate : float;
  term_years : Z;
  extra_payment : float;
  monthly_fee : float
}.

Definition set_extra_payment (self : t) (v : float) : t :=
  mk (loan_amount self) (interest_rate self) (term_years self) v
     (monthly_fee self).

(** One dict appended to [schedule]. *)
Record entry : Type := mk_entry {
  e_month : Z;
  e_payment : float;
  e_principal : float;
  e_interest : float;
  e_balance : float;
  e_extra_payment : float;
  e_fee : float
}.

(** The dict returned by [calculate_amortization]. *)
Record result : Type := mk_result {
  schedule : list entry;
  total_interest : float;
  final_payment_month : Z
}.

(** [calculate_monthly_payment(self, monthly_rate, months)]. *)
Definition calculate_monthly_payment (self : t) (monthly_rate : float)
  (months : Z) : run float :=
  if PrimFloat.eqb monthly_rate 0 then
    m <~ float_of_int months ;;
    div (loan_amount self) m
  else
    p1 <~ pow (1 + monthly_rate)%float months ;;
    p2 <~ pow (1 + monthly_rate)%float months ;;
    div (loan_amount self * monthly_rate * p1)%float (p2 - 1)%float.

(** The variables the [for] loop of [calculate_amortization] updates. *)
Record loop_state : Type := mk_loop {
  l_self : t;
  l_balance : float;
  l_total_interest : float;
  l_schedule : list entry
}.

(** One pass through the loop body for [month]. *)
Definition loop_body (payment monthly_rate : float) (month : Z)
  (st : loop_state) : loop_state :=
  let self := l_self st in
  let balance := l_balance st in
  let interest := (balance * monthly_rate)%float in
  let principal := (payment - interest)%float in
  let total_payment := (principal + extra_payment self)%float in
  let clamp := PrimFloat.ltb balance total_payment in
  let total_payment := if clamp then balance else total_payment in
  let self := if clamp then set_extra_payment self 0%float else self in
  let balance := (balance - total_payment)%float in
  let total_interest := (l_total_interest st + interest)%float in
  mk_loop self balance total_interest
    (l_schedule st ++
       [mk_entry month (total_payment + monthly_fee self)%float principal
          interest balance (extra_payment self) (monthly_fee self)]).

(** [for month in range(1, months + 1): if balance <= 0: break ...]. *)
Fixpoint loop (payment monthly_rate : float) (months : list Z)
  (st : loop_state) : loop_state :=
  match months with
  | [] => st
  | month :: rest =>
      if PrimFloat.leb (l_balance st) 0 then st
      else loop payment monthly_rate rest
             (loop_body payment monthly_rate month st)
  end.

(** [calculate_amortization(self)]: the returned dict and the engine as the
    call leaves it. *)
Definition calculate_amortization (self : t) : run (result * t) :=
  let monthly_rate := (interest_rate self / 100 / 12)%float in
  let months := (term_years self * 12)%Z in
  payment <~ calculate_monthly_payment self monthly_rate months ;;
  let st := loop payment monthly_rate (Py.range1 months)
              (mk_loop self (loan_amount self) 0%float []) in
  Returns (mk_result (l_schedule st) (l_total_interest st)
             (Py.len (l_schedule st)),
           l_self st).

End Binary64.

(** ** Example engines and inputs *)

Module Ex.

(** 1200 borrowed at 12 % for one year, 700 extra a month, fee 5. *)
Definition fast : Engine.t := Engine.mk 1200 12 1 700 5.

(** 1200 borrowed at 30 % for seven years, 0.2 extra a month. *)
Definition slow : Engine.t := Engine.mk 1200 30 7 (1 # 5) 0.


(** 1200 sought, no down payment, 12 %, nothing towards the principal. *)
Definition idle : Calculator.inputs :=
  Calculator.mk_inputs 1200 0 Calculator.Manual 12 0 0 0.

(** 1200 sought, no down payment, 12 %, 100 principal and 100 extra. *)
Definition brisk : Calculator.inputs :=
  Calculator.mk_inputs 1200 0 Calculator.Manual 12 100 100 0.



(** 1200 borrowed for one year at an interest rate of 1.2e-14 %, on
    binary64 floats. *)
Definition faint : Binary64.t := Binary64.mk 1200 1.2e-14 1 0 0.

End Ex.

(** * Properties *)

(** ** Comparisons and the raising operations *)

Lemma gtb_true (x y : Q) : Py.gtb x y = true <-> y < x.
Proof.
  unfold Py.gtb. rewrite negb_true_iff, <- not_true_iff_false, Qle_bool_iff.
  split; intro H; [apply Qnot_le_lt, H | apply Qlt_not_le, H].
Qed.

Lemma gtb_false (x y : Q) : Py.gtb x y = false <-> x <= y.
Proof.
  unfold Py.gtb. rewrite negb_false_iff. apply Qle_bool_iff.
Qed.

Lemma leb_false (x y : Q) : Qle_bool x y = false <-> y < x.
Proof.
  rewrite <- not_true_iff_false, Qle_bool_iff.
  split; intro H; [apply Qnot_le_lt, H | apply Qlt_not_le, H].
Qed.

Lemma div_ok (x y : Q) : ~ y == 0 -> Py.div x y = Ok (x / y).
Proof.
  intro H. unfold Py.div.
  destruct (Qeq_bool y 0) eqn:E; [apply Qeq_bool_eq in E; contradiction | reflexivity].
Qed.

Lemma div_zero (x y : Q) : y == 0 -> Py.div x y = Raise ZeroDivisionError.
Proof.
  intro H. unfold Py.div. apply Qeq_bool_iff in H. now rewrite H.
Qed.

Lemma pow_ok (x : Q) (n : Z) : ~ x == 0 -> Py.pow x n = Ok (x ^ n).
Proof.
  intro H. unfold Py.pow.
  destruct (Qeq_bool x 0) eqn:E; [apply Qeq_bool_eq in E; contradiction | reflexivity].
Qed.


Lemma Qdiv_pos (x y : Q) : 0 < x -> 0 < y -> 0 < x / y.
Proof.
  intros Hx Hy. unfold Qdiv. apply Qmult_lt_0_compat; [exact Hx|].
  apply Qinv_lt_0_compat, Hy.
Qed.

(** ** The payment formula *)

Section Payment.

Variable self : Engine.t.
Variable r : Q.
Variable n : Z.
Hypothesis Hn : (1 <= n)%Z.

Lemma growth_gt_1 : 0 < r -> 1 < (1 + r) ^ n.
Proof.
  intro Hr. apply Qpower_1_lt; [lra | lia].
Qed.


Lemma payment_rate_pos :
  0 < r ->
  Engine.calculate_monthly_payment self r n
  = Ok (Engine.loan_amount self * r * (1 + r) ^ n / ((1 + r) ^ n - 1)).
Proof.
  intro Hr. unfold Engine.calculate_monthly_payment.
  destruct (Qeq_bool r 0) eqn:E.
  - apply Qeq_bool_eq in E. lra.
  - rewrite pow_ok by lra. cbn [bind].
    apply div_ok. pose proof (growth_gt_1 Hr). lra.
Qed.

End Payment.

(** C8, where the code departs from it.  On binary64 floats the monthly
    rate [1e-17] is not zero, so the guard [monthly_rate == 0] lets it
    through to the annuity formula; [1 + 1e-17] is [1.0], the denominator
    [(1 + monthly_rate) ** 12 - 1] is [0.0], and
    [calculate_monthly_payment] raises [ZeroDivisionError] where the
    formula, over exact rationals ([payment_rate_pos]), has a value. *)
Theorem tiny_rate_payment_raises :
  PrimFloat.eqb 1e-17 0 = false /\
  PrimFloat.eqb (1 + 1e-17) 1 = true /\
  Binary64.calculate_monthly_payment Ex.faint 1e-17 12
  = Binary64.Raises ZeroDivisionError.
Proof.
  split; [reflexivity|]. split; reflexivity.
Qed.

(** ** The schedule loop *)

Section Loop.

Import Engine Sched.

Variables payment rate : Q.

Lemma loop_stop (ms : list Z) (st : loop_state) :
  Qle_bool (l_balance st) 0 = true -> loop payment rate ms st = st.
Proof.
  intro H. destruct ms; simpl; [reflexivity | now rewrite H].
Qed.

Lemma loop_step (m : Z) (ms : list Z) (st : loop_state) :
  Qle_bool (l_balance st) 0 = false ->
  loop payment rate (m :: ms) st
  = loop payment rate ms (loop_body payment rate m st).
Proof.
  intro H. simpl. now rewrite H.
Qed.

Lemma loop_app (a b : list Z) (st : loop_state) :
  loop payment rate (a ++ b) st = loop payment rate b (loop payment rate a st).
Proof.
  revert st. induction a as [|m a IH]; intro st; simpl; [reflexivity|].
  destruct (Qle_bool (l_balance st) 0) eqn:E.
  - symmetry. now apply loop_stop.
  - apply IH.
Qed.

(** A month appends one entry. *)
Lemma body_schedule (m : Z) (st : loop_state) :
  exists e, l_schedule (loop_body payment rate m st) = l_schedule st ++ [e].
Proof.
  eexists. reflexivity.
Qed.

Lemma loop_prefix (ms : list Z) (st : loop_state) :
  exists tl, l_schedule (loop payment rate ms st) = l_schedule st ++ tl.
Proof.
  revert st. induction ms as [|m ms IH]; intro st; simpl.
  - exists []. now rewrite app_nil_r.
  - destruct (Qle_bool (l_balance st) 0).
    + exists []. now rewrite app_nil_r.
    + destruct (IH (loop_body payment rate m st)) as [tl Htl].
      rewrite Htl. simpl. rewrite <- app_assoc. eexists. reflexivity.
Qed.

(** A loop that ends with money still owed has run every month. *)
Lemma loop_running_length (ms : list Z) (st : loop_state) :
  Qle_bool (l_balance (loop payment rate ms st)) 0 = false ->
  length (l_schedule (loop payment rate ms st))
  = (length (l_schedule st) + length ms)%nat.
Proof.
  revert st. induction ms as [|m ms IH]; intro st; simpl.
  - intros _. lia.
  - destruct (Qle_bool (l_balance st) 0) eqn:E.
    + intro H. congruence.
    + intro H. rewrite (IH _ H). simpl. rewrite length_app. simpl. lia.
Qed.

(** A loop that produced fewer entries than months stopped at a balance
    [<= 0]. *)
Lemma loop_short_paid (ms : list Z) (st : loop_state) :
  (length (l_schedule (loop payment rate ms st))
   < length (l_schedule st) + length ms)%nat ->
  Qle_bool (l_balance (loop payment rate ms st)) 0 = true.
Proof.
  intro H. destruct (Qle_bool (l_balance (loop payment rate ms st)) 0) eqn:E;
    [reflexivity|].
  apply loop_running_length in E. lia.
Qed.

Lemma loop_length_le (ms : list Z) (st : loop_state) :
  (length (l_schedule (loop payment rate ms st))
   <= length (l_schedule st) + length ms)%nat.
Proof.
  revert st. induction ms as [|m ms IH]; intro st; simpl; [lia|].
  destruct (Qle_bool (l_balance st) 0); [lia|].
  specialize (IH (loop_body payment rate m st)).
  simpl in IH. rewrite length_app in IH. simpl in IH. lia.
Qed.

(** The engine's attributes: only [extra_payment] can change, and only to
    zero. *)
Lemma body_self (m : Z) (st : loop_state) :
  l_self (loop_body payment rate m st) = l_self st \/
  l_self (loop_body payment rate m st) = set_extra_payment (l_self st) 0.
Proof.
  unfold loop_body. simpl.
  destruct (Py.gtb _ _); [right | left]; reflexivity.
Qed.

Lemma loop_self (ms : list Z) (st : loop_state) :
  l_self (loop payment rate ms st) = l_self st \/
  l_self (loop payment rate ms st) = set_extra_payment (l_self st) 0.
Proof.
  revert st. induction ms as [|m ms IH]; intro st; simpl; [now left|].
  destruct (Qle_bool (l_balance st) 0); [now left|].
  destruct (IH (loop_body payment rate m st)) as [H|H];
    destruct (body_self m st) as [B|B]; rewrite H, B; auto.
Qed.

(** The clamp month: the balance is brought to zero and the entry records
    a zero extra payment. *)
Lemma body_clamp (m : Z) (st : loop_state) :
  Py.gtb (payment - l_balance st * rate + extra_payment (l_self st))
    (l_balance st) = true ->
  l_balance (loop_body payment rate m st) == 0 /\
  exists e, l_schedule (loop_body payment rate m st) = l_schedule st ++ [e]
            /\ e_extra_payment e = 0.
Proof.
  intro H. unfold loop_body. rewrite H. simpl. split; [ring|].
  eexists. split; reflexivity.
Qed.

End Loop.

Lemma set_extra_same (self : Engine.t) :
  Engine.set_extra_payment self (Engine.extra_payment self) = self.
Proof.
  now destruct self.
Qed.

Lemma amortization_unfold (self : Engine.t) (r : Engine.result) (self' : Engine.t) :
  Engine.calculate_amortization self = Ok (r, self') ->
  exists payment,
    Engine.calculate_monthly_payment self (Sched.rate_of self)
      (Engine.term_years self * 12) = Ok payment /\
    let st := Engine.loop payment (Sched.rate_of self) (Sched.months_of self)
                (Sched.init self) in
    r = Engine.mk_result (Engine.l_schedule st) (Engine.l_total_interest st)
          (Py.len (Engine.l_schedule st)) /\
    self' = Engine.l_self st.
Proof.
  unfold Engine.calculate_amortization, Sched.rate_of, Sched.months_of, Sched.init.
  destruct (Engine.calculate_monthly_payment _ _ _) as [payment|e]; simpl;
    [|discriminate].
  intro H. injection H as <- <-. exists payment. auto.
Qed.

Lemma amortization_fold (self : Engine.t) (payment : Q) :
  Engine.calculate_monthly_payment self (Sched.rate_of self)
    (Engine.term_years self * 12) = Ok payment ->
  Engine.calculate_amortization self
  = Ok (Engine.mk_result
          (Engine.l_schedule
             (Engine.loop payment (Sched.rate_of self) (Sched.months_of self)
                (Sched.init self)))
          (Engine.l_total_interest
             (Engine.loop payment (Sched.rate_of self) (Sched.months_of self)
                (Sched.init self)))
          (Py.len
             (Engine.l_schedule
                (Engine.loop payment (Sched.rate_of self) (Sched.months_of self)
                   (Sched.init self)))),
        Engine.l_self
          (Engine.loop payment (Sched.rate_of self) (Sched.months_of self)
             (Sched.init self))).
Proof.
  intro Hpay. unfold Engine.calculate_amortization.
  fold (Sched.rate_of self). rewrite Hpay. reflexivity.
Qed.

(** C2, as the code has it.  A call of [calculate_amortization] changes no
    attribute of the engine except [extra_payment], which it either leaves
    alone or sets to zero; when it is left alone, a second call on the same
    engine returns the identical result; and from the second call on the
    engine no longer changes. *)
Theorem amortization_repeat (self : Engine.t) (r1 : Engine.result)
  (self1 : Engine.t) :
  Engine.calculate_amortization self = Ok (r1, self1) ->
  (self1 = self \/ self1 = Engine.set_extra_payment self 0) /\
  (Engine.extra_payment self1 = Engine.extra_payment self ->
   Engine.calculate_amortization self1 = Ok (r1, self1)) /\
  (forall r2 self2,
     Engine.calculate_amortization self1 = Ok (r2, self2) -> self2 = self1).
Proof.
  intro H.
  assert (Hself : forall s r s',
            Engine.calculate_amortization s = Ok (r, s') ->
            s' = s \/ s' = Engine.set_extra_payment s 0).
  { intros s r s' Hc. apply amortization_unfold in Hc.
    destruct Hc as (payment & _ & _ & ->).
    apply (loop_self payment (Sched.rate_of s) (Sched.months_of s) (Sched.init s)). }
  pose proof (Hself _ _ _ H) as H1. split; [exact H1|]. split.
  - intro Hx. destruct H1 as [->| ->]; [exact H|].
    simpl in Hx. rewrite Hx, set_extra_same. rewrite Hx, set_extra_same in H.
    exact H.
  - intros r2 self2 H2. destruct H1 as [->| ->].
    + congruence.
    + destruct (Hself _ _ _ H2) as [->| ->]; reflexivity.
Qed.

Lemma amortization_repeat_witness :
  exists r1 self1,
    Engine.calculate_amortization Ex.fast = Ok (r1, self1) /\
    self1 = Engine.set_extra_payment Ex.fast 0 /\
    forall r2 self2,
      Engine.calculate_amortization self1 = Ok (r2, self2) -> self2 = self1.
Proof.
  destruct (Engine.calculate_amortization Ex.fast) as [[r1 self1]|e] eqn:E;
    [|vm_compute in E; discriminate].
  exists r1, self1. split; [reflexivity|].
  pose proof (amortization_repeat Ex.fast r1 self1 E) as (_ & _ & H3).
  split; [|exact H3].
  vm_compute in E. injection E as _ <-. reflexivity.
Defined.

(** ** The clamp *)

Lemma skipn_cons_of_lt {A : Type} (k : nat) (l : list A) :
  (k < length l)%nat -> exists x tl, skipn k l = x :: tl.
Proof.
  revert l. induction k as [|k IH]; intros [|x l] H; simpl in *; try lia.
  - now exists x, l.
  - apply IH. lia.
Qed.

(** When the month of index [k] clamps, the schedule is the [k] entries
    before it followed by the clamp entry, whose extra payment is zero. *)
Lemma clamp_ends_schedule (self : Engine.t) (payment : Q) (k : nat) :
  let st := Sched.state_after self payment k in
  (k < length (Sched.months_of self))%nat ->
  Qle_bool (Engine.l_balance st) 0 = false ->
  Py.gtb (payment - Engine.l_balance st * Sched.rate_of self
          + Engine.extra_payment (Engine.l_self st)) (Engine.l_balance st) = true ->
  exists pre e,
    Engine.l_schedule
      (Engine.loop payment (Sched.rate_of self) (Sched.months_of self)
         (Sched.init self)) = pre ++ [e] /\
    length pre = k /\ Engine.e_extra_payment e = 0.
Proof.
  intros st Hk Hrun Hclamp.
  destruct (skipn_cons_of_lt k _ Hk) as (m & rest & Hskip).
  pose proof (firstn_skipn k (Sched.months_of self)) as Hsplit.
  rewrite Hskip in Hsplit. rewrite <- Hsplit, loop_app.
  fold (Sched.state_after self payment k). fold st.
  rewrite loop_step by exact Hrun.
  destruct (body_clamp payment (Sched.rate_of self) m st Hclamp)
    as (Hzero & e & Hsched & Hextra).
  rewrite loop_stop.
  - exists (Engine.l_schedule st), e. split; [exact Hsched|]. split; [|exact Hextra].
    unfold st, Sched.state_after.
    rewrite loop_running_length by exact Hrun.
    simpl. rewrite length_firstn. lia.
  - apply Qle_bool_iff. rewrite Hzero. apply Qle_refl.
Qed.

(** C6.  Once the clamp occurs in a month, the entry of that month and every
    later entry of the schedule record a zero extra payment. *)
Theorem extra_zero_after_clamp (self : Engine.t) (r : Engine.result)
  (self' : Engine.t) (k : nat) :
  Engine.calculate_amortization self = Ok (r, self') ->
  Sched.clamp_at self k = true ->
  forall (j : nat) (e : Engine.entry),
    (k <= j)%nat -> nth_error (Engine.schedule r) j = Some e ->
    Engine.e_extra_payment e = 0.
Proof.
  intros Hc Hclamp j e Hj Hnth.
  apply amortization_unfold in Hc. destruct Hc as (payment & Hpay & Hr & _).
  unfold Sched.clamp_at in Hclamp. rewrite Hpay in Hclamp.
  apply andb_prop in Hclamp. destruct Hclamp as [Hclamp H3].
  apply andb_prop in Hclamp. destruct Hclamp as [H1 H2].
  apply Nat.ltb_lt in H1. apply negb_true_iff in H2.
  destruct (clamp_ends_schedule self payment k H1 H2 H3)
    as (pre & e0 & Hs & Hlen & Hextra).
  subst r. simpl in Hnth. rewrite Hs in Hnth.
  assert (Hjk : j = length pre).
  { assert (Hlt : (j < length (pre ++ [e0]))%nat)
      by (apply nth_error_Some; congruence).
    rewrite length_app in Hlt. simpl in Hlt. lia. }
  subst j. rewrite nth_error_app2, Nat.sub_diag in Hnth by lia.
  simpl in Hnth. injection Hnth as <-. exact Hextra.
Qed.

Lemma extra_zero_after_clamp_witness :
  exists r self' e,
    Engine.calculate_amortization Ex.fast = Ok (r, self') /\
    Sched.clamp_at Ex.fast 1 = true /\
    nth_error (Engine.schedule r) 1 = Some e /\
    Engine.e_extra_payment e = 0.
Proof.
  destruct (Engine.calculate_amortization Ex.fast) as [[r self']|x] eqn:E;
    [|vm_compute in E; discriminate].
  destruct (nth_error (Engine.schedule r) 1) as [e|] eqn:En;
    [|vm_compute in E; injection E as <- _; vm_compute in En; discriminate].
  exists r, self', e.
  assert (Hclamp : Sched.clamp_at Ex.fast 1 = true) by (vm_compute; reflexivity).
  repeat split; try assumption.
  exact (extra_zero_after_clamp Ex.fast r self' 1 E Hclamp 1%nat e (le_n 1) En).
Defined.

(** ** Balances along a schedule *)

Lemma non_increasing_snoc (x0 : Q) (l : list Q) (y : Q) :
  Sched.non_increasing (x0 :: l) -> y <= last (x0 :: l) x0 ->
  Sched.non_increasing ((x0 :: l) ++ [y]).
Proof.
  revert x0. induction l as [|x l IH]; intros x0 Hl Hy.
  - simpl in *. auto.
  - destruct Hl as [Hx Hl]. split; [exact Hx|].
    apply (IH x Hl).
    assert (E : forall d d', last (x :: l) d = last (x :: l) d').
    { clear. revert x. induction l as [|z l IHl]; intros x d d'; [reflexivity|].
      change (last (z :: l) d = last (z :: l) d'). apply IHl. }
    change (last (x0 :: x :: l) x0) with (last (x :: l) x0) in Hy.
    now rewrite (E x x0).
Qed.

Section Valid.

Import Engine Sched.

Variable self : t.
Hypothesis Hloan : 0 < loan_amount self.
Hypothesis Hrate : 0 < interest_rate self.
Hypothesis Hterm : (1 <= term_years self)%Z.

Lemma rate_of_pos : 0 < rate_of self.
Proof.
  unfold rate_of. apply Qdiv_pos; [apply Qdiv_pos|]; [exact Hrate | reflexivity..].
Qed.

Lemma months_pos : (1 <= term_years self * 12)%Z.
Proof. lia. Qed.

Lemma valid_payment :
  exists payment,
    calculate_monthly_payment self (rate_of self) (term_years self * 12)
    = Ok payment /\
    payment == loan_amount self * rate_of self
               * (1 + rate_of self) ^ (term_years self * 12)
               / ((1 + rate_of self) ^ (term_years self * 12) - 1) /\
    loan_amount self * rate_of self < payment.
Proof.
  pose proof rate_of_pos as Hr. pose proof months_pos as Hn.
  pose proof (growth_gt_1 (rate_of self) _ Hn Hr) as Hg.
  eexists. split; [apply payment_rate_pos; assumption|]. split; [reflexivity|].
  set (X := (1 + rate_of self) ^ (term_years self * 12)) in *.
  assert (E : loan_amount self * rate_of self * X / (X - 1)
              == loan_amount self * rate_of self
                 + loan_amount self * rate_of self / (X - 1)).
  { field. lra. }
  rewrite E.
  assert (0 < loan_amount self * rate_of self / (X - 1)).
  { apply Qdiv_pos; [apply Qmult_lt_0_compat; assumption | lra]. }
  lra.
Qed.

Variable payment : Q.
Hypothesis Hpay : loan_amount self * rate_of self < payment.

Lemma body_balance_inv (m : Z) (st : loop_state) :
  balance_inv self st -> 0 < l_balance st ->
  balance_inv self (loop_body payment (rate_of self) m st).
Proof.
  intros (H0 & HP & Hx & Hni & Hlast & Hall) Hb.
  pose proof rate_of_pos as Hr.
  assert (Hint : l_balance st * rate_of self <= loan_amount self * rate_of self).
  { apply Qmult_le_compat_r; [exact HP | lra]. }
  unfold balance_inv, loop_body.
  destruct (Py.gtb _ _) eqn:Hc; cbn [l_balance l_self l_schedule extra_payment
                                      set_extra_payment].
  - rewrite map_app; cbn [map e_balance].
    repeat split.
    + lra.
    + lra.
    + lra.
    + apply (non_increasing_snoc _ _ _ Hni). rewrite Hlast. lra.
    + change (loan_amount self :: map e_balance (l_schedule st)
                ++ [l_balance st - l_balance st])
        with ((loan_amount self :: map e_balance (l_schedule st))
                ++ [l_balance st - l_balance st]).
      rewrite last_last. reflexivity.
    + apply Forall_app. split; [exact Hall|]. constructor; [|constructor].
      cbn [e_balance]. lra.
  - apply gtb_false in Hc. rewrite map_app; cbn [map e_balance].
    repeat split.
    + lra.
    + lra.
    + exact Hx.
    + apply (non_increasing_snoc _ _ _ Hni). rewrite Hlast. lra.
    + match goal with
      | |- last (?a :: ?l ++ [?x]) _ == _ =>
          change (a :: l ++ [x]) with ((a :: l) ++ [x])
      end.
      rewrite last_last. reflexivity.
    + apply Forall_app. split; [exact Hall|]. constructor; [|constructor].
      cbn [e_balance]. lra.
Qed.

Lemma loop_balance_inv (ms : list Z) (st : loop_state) :
  balance_inv self st -> balance_inv self (loop payment (rate_of self) ms st).
Proof.
  revert st. induction ms as [|m ms IH]; intros st Hinv; simpl; [exact Hinv|].
  destruct (Qle_bool (l_balance st) 0) eqn:E; [exact Hinv|].
  apply IH, body_balance_inv; [exact Hinv|]. now apply leb_false.
Qed.

Lemma init_balance_inv :
  0 <= extra_payment self -> balance_inv self (init self).
Proof.
  intro Hx. unfold balance_inv, init. simpl.
  repeat split; try lra. constructor.
Qed.

End Valid.

Lemma range1_length (n : Z) : length (Py.range1 n) = Z.to_nat n.
Proof.
  unfold Py.range1. now rewrite length_map, length_seq.
Qed.

Lemma months_of_length (self : Engine.t) :
  length (Sched.months_of self) = Z.to_nat (Engine.term_years self * 12).
Proof.
  apply range1_length.
Qed.

(** C5.  Whenever [calculate_amortization] returns for a valid engine (loan
    above zero, rate above zero and at most 30 %, a term of at least one
    year, extra payment not negative), the balances of the returned
    schedule never go up from one entry to the next (starting from the loan
    amount), are never negative, and the last balance is zero when the
    schedule is shorter than the term. *)
Theorem balance_never_rises (self : Engine.t) (r : Engine.result)
  (self' : Engine.t) :
  0 < Engine.loan_amount self ->
  0 < Engine.interest_rate self ->
  Engine.interest_rate self <= 30 ->
  (1 <= Engine.term_years self)%Z ->
  0 <= Engine.extra_payment self ->
  Engine.calculate_amortization self = Ok (r, self') ->
  Sched.non_increasing (Sched.balances self r) /\
  Forall (fun e => 0 <= Engine.e_balance e) (Engine.schedule r) /\
  ((Engine.final_payment_month r < Engine.term_years self * 12)%Z ->
   exists pre e,
     Engine.schedule r = pre ++ [e] /\ Engine.e_balance e == 0).
Proof.
  intros Hloan Hrate _ Hterm Hextra Hcall.
  destruct (amortization_unfold self r self' Hcall) as (payment & Hpay & Hr & _).
  destruct (valid_payment self Hloan Hrate Hterm) as (payment' & Hpay' & _ & Hgt).
  rewrite Hpay in Hpay'. injection Hpay' as <-.
  pose proof (loop_balance_inv self Hloan Hrate payment Hgt
                (Sched.months_of self) (Sched.init self)
                (init_balance_inv self Hloan Hextra)) as Hinv.
  cbv zeta in Hr. subst r.
  set (st := Engine.loop payment (Sched.rate_of self) (Sched.months_of self)
               (Sched.init self)) in *.
  destruct Hinv as (H0 & _ & _ & Hni & Hlast & Hall).
  unfold Sched.balances. cbn [Engine.schedule Engine.final_payment_month].
  split; [exact Hni|]. split; [exact Hall|].
  intro Hshort.
  assert (Hpaid : Qle_bool (Engine.l_balance st) 0 = true).
  { apply loop_short_paid. rewrite months_of_length.
    cbn [Sched.init Engine.l_schedule length Nat.add].
    unfold Py.len in Hshort. fold st. lia. }
  apply Qle_bool_iff in Hpaid.
  destruct (Engine.l_schedule st) as [|e0 l0] eqn:Es.
  - simpl in Hlast. lra.
  - destruct (exists_last (l := e0 :: l0)) as (pre & e & Hsplit); [discriminate|].
    exists pre, e. split; [exact Hsplit|].
    rewrite Hsplit, map_app in Hlast. cbn [map] in Hlast.
    match type of Hlast with
    | last (?a :: ?l ++ [?x]) _ == _ =>
        change (a :: l ++ [x]) with ((a :: l) ++ [x]) in Hlast
    end.
    rewrite last_last in Hlast. lra.
Qed.

Lemma balance_never_rises_witness :
  exists r self',
    Engine.calculate_amortization Ex.fast = Ok (r, self') /\
    Sched.non_increasing (Sched.balances Ex.fast r) /\
    Forall (fun e => 0 <= Engine.e_balance e) (Engine.schedule r) /\
    ((Engine.final_payment_month r < Engine.term_years Ex.fast * 12)%Z ->
     exists pre e,
       Engine.schedule r = pre ++ [e] /\ Engine.e_balance e == 0).
Proof.
  destruct (valid_payment Ex.fast eq_refl eq_refl ltac:(simpl; lia))
    as (payment & Hpay & _).
  pose proof (amortization_fold Ex.fast payment Hpay) as Hc.
  do 2 eexists. split; [exact Hc|].
  exact (balance_never_rises Ex.fast _ _ eq_refl eq_refl
           ltac:(simpl; discriminate) ltac:(simpl; lia)
           ltac:(simpl; discriminate) Hc).
Defined.

(** ** Schedules without extra payment *)

Lemma sum_principal_snoc (l : list Engine.entry) (e : Engine.entry) :
  Sched.sum_principal (l ++ [e]) == Sched.sum_principal l + Engine.e_principal e.
Proof.
  unfold Sched.sum_principal.
  induction l as [|x l IH]; cbn [app fold_right].
  - ring.
  - rewrite IH. ring.
Qed.

Lemma Qdiv_nonneg (x y : Q) : 0 <= x -> 0 < y -> 0 <= x / y.
Proof.
  intros Hx Hy. unfold Qdiv. apply Qmult_le_0_compat; [exact Hx|].
  apply Qlt_le_weak, Qinv_lt_0_compat, Hy.
Qed.

Lemma Qpower_succ (q : Q) (k : nat) :
  ~ q == 0 -> q ^ Z.of_nat (S k) == q ^ Z.of_nat k * q.
Proof.
  intro Hq. rewrite Nat2Z.inj_succ. unfold Z.succ.
  rewrite Qpower_plus by exact Hq. now rewrite Qpower_1_r.
Qed.

Section NoExtra.

Import Engine Sched.

Variable self : t.
Hypothesis Hloan : 0 < loan_amount self.
Hypothesis Hrate : 0 < interest_rate self.
Hypothesis Hterm : (1 <= term_years self)%Z.

Variable payment : Q.
Hypothesis Hpay :
  payment == loan_amount self * rate_of self
             * (1 + rate_of self) ^ (term_years self * 12)
             / ((1 + rate_of self) ^ (term_years self * 12) - 1).

Lemma closed_balance_pos (k : nat) :
  (Z.of_nat k < term_years self * 12)%Z -> 0 < closed_balance self k.
Proof.
  intro Hk. pose proof (rate_of_pos self Hrate) as Hr.
  pose proof (growth_gt_1 (rate_of self) _ (months_pos self Hterm) Hr) as Hg.
  unfold closed_balance. cbv zeta.
  assert (Hlt : (1 + rate_of self) ^ Z.of_nat k
                < (1 + rate_of self) ^ (term_years self * 12)).
  { apply Qpower_lt_compat_l; [exact Hk | lra]. }
  apply Qdiv_pos; [|lra]. apply Qmult_lt_0_compat; lra.
Qed.

Lemma closed_balance_nonneg (k : nat) :
  (Z.of_nat k <= term_years self * 12)%Z -> 0 <= closed_balance self k.
Proof.
  intro Hk. pose proof (rate_of_pos self Hrate) as Hr.
  pose proof (growth_gt_1 (rate_of self) _ (months_pos self Hterm) Hr) as Hg.
  unfold closed_balance. cbv zeta.
  assert (Hle : (1 + rate_of self) ^ Z.of_nat k
                <= (1 + rate_of self) ^ (term_years self * 12)).
  { apply Qpower_le_compat_l; [exact Hk | lra]. }
  apply Qdiv_nonneg; [|lra]. apply Qmult_le_0_compat; lra.
Qed.

(** One month of annuity payment moves the closed form one step. *)
Lemma closed_balance_step (k : nat) :
  closed_balance self k * (1 + rate_of self) - payment
  == closed_balance self (S k).
Proof.
  pose proof (rate_of_pos self Hrate) as Hr.
  pose proof (growth_gt_1 (rate_of self) _ (months_pos self Hterm) Hr) as Hg.
  unfold closed_balance. cbv zeta.
  rewrite Hpay, Qpower_succ by lra.
  set (X := (1 + rate_of self) ^ (term_years self * 12)) in *.
  set (Y := (1 + rate_of self) ^ Z.of_nat k).
  field. lra.
Qed.

Lemma body_annuity_inv (k : nat) (st : loop_state) :
  (Z.of_nat (S k) <= term_years self * 12)%Z ->
  annuity_inv self k st ->
  annuity_inv self (S k) (loop_body payment (rate_of self) (Z.of_nat (S k)) st).
Proof.
  intros Hk (Hb & Hx & Hlen & Hsum).
  pose proof (closed_balance_step k) as Hstep.
  pose proof (closed_balance_nonneg (S k) Hk) as Hnn.
  rewrite <- Hb in Hstep.
  assert (Hc : Py.gtb (payment - l_balance st * rate_of self
                       + extra_payment (l_self st)) (l_balance st) = false).
  { apply gtb_false. lra. }
  unfold annuity_inv, loop_body. rewrite Hc.
  cbn [l_balance l_self l_schedule]. repeat split.
  - rewrite <- Hstep. rewrite Hx. ring.
  - exact Hx.
  - rewrite length_app. simpl. lia.
  - rewrite sum_principal_snoc. cbn [e_principal]. rewrite Hsum, Hx. ring.
Qed.

Lemma loop_annuity_inv (m k : nat) (st : loop_state) :
  (Z.of_nat (k + m) <= term_years self * 12)%Z ->
  annuity_inv self k st ->
  annuity_inv self (k + m)
    (loop payment (rate_of self) (map Z.of_nat (seq (S k) m)) st).
Proof.
  revert k st. induction m as [|m IH]; intros k st Hk Hinv.
  - simpl. now rewrite Nat.add_0_r.
  - cbn [seq map].
    assert (Hpos : 0 < l_balance st).
    { destruct Hinv as (Hb & _). rewrite Hb. apply closed_balance_pos. lia. }
    rewrite loop_step by (now apply leb_false).
    replace (k + S m)%nat with (S k + m)%nat by lia.
    apply IH; [lia|]. apply body_annuity_inv; [lia | exact Hinv].
Qed.

Lemma init_annuity_inv :
  extra_payment self == 0 -> annuity_inv self 0 (init self).
Proof.
  intro Hx. pose proof (rate_of_pos self Hrate) as Hr.
  pose proof (growth_gt_1 (rate_of self) _ (months_pos self Hterm) Hr) as Hg.
  unfold annuity_inv, init, closed_balance.
  cbn [l_balance l_self l_schedule length sum_principal fold_right Z.of_nat].
  repeat split.
  - rewrite Qpower_0_r. field. lra.
  - exact Hx.
  - ring.
Qed.

Lemma closed_balance_end :
  closed_balance self (Z.to_nat (term_years self * 12)) == 0.
Proof.
  pose proof (rate_of_pos self Hrate) as Hr.
  pose proof (growth_gt_1 (rate_of self) _ (months_pos self Hterm) Hr) as Hg.
  unfold closed_balance. cbv zeta. rewrite Z2Nat.id by lia. field. lra.
Qed.

End NoExtra.

(** Without extra payment a valid engine runs the whole term, and the
    principal parts add up to the loan. *)
Lemma no_extra_full_term (self : Engine.t) :
  0 < Engine.loan_amount self ->
  0 < Engine.interest_rate self ->
  (1 <= Engine.term_years self)%Z ->
  Engine.extra_payment self == 0 ->
  exists r self',
    Engine.calculate_amortization self = Ok (r, self') /\
    Engine.final_payment_month r = (Engine.term_years self * 12)%Z /\
    length (Engine.schedule r) = Z.to_nat (Engine.term_years self * 12) /\
    Sched.sum_principal (Engine.schedule r) == Engine.loan_amount self.
Proof.
  intros Hloan Hrate Hterm Hextra.
  destruct (valid_payment self Hloan Hrate Hterm) as (payment & Hpay & Heq & _).
  pose proof (loop_annuity_inv self Hloan Hrate Hterm payment Heq
                (Z.to_nat (Engine.term_years self * 12)) 0 (Sched.init self))
    as Hinv.
  cbn [Nat.add] in Hinv.
  specialize (Hinv ltac:(lia) (init_annuity_inv self Hrate Hterm Hextra)).
  destruct Hinv as (Hb & _ & Hlen & Hsum).
  unfold Engine.calculate_amortization.
  fold (Sched.rate_of self). rewrite Hpay. cbn [bind].
  do 2 eexists. split; [reflexivity|].
  cbn [Engine.schedule Engine.final_payment_month].
  fold (Sched.init self). unfold Py.len, Py.range1.
  rewrite Hlen. split; [lia|]. split; [reflexivity|].
  rewrite Hsum, Hb, (closed_balance_end self Hrate Hterm). ring.
Qed.

(** C9, where the code departs from it.  [Ex.faint] is a valid engine
    without extra payment (loan 1200, interest rate 1.2e-14 %, one year);
    on binary64 floats [calculate_amortization] computes the monthly rate
    [1e-17], [calculate_monthly_payment] raises [ZeroDivisionError], and no
    schedule is returned, where over exact rationals
    ([no_extra_full_term]) the schedule has twelve entries whose principal
    parts add up to the loan. *)
Theorem tiny_rate_schedule_raises :
  PrimFloat.ltb 0 (Binary64.loan_amount Ex.faint) = true /\
  PrimFloat.ltb 0 (Binary64.interest_rate Ex.faint) = true /\
  PrimFloat.eqb (Binary64.extra_payment Ex.faint) 0 = true /\
  Binary64.calculate_amortization Ex.faint
  = Binary64.Raises ZeroDivisionError.
Proof.
  split; [reflexivity|]. split; [reflexivity|]. split; reflexivity.
Qed.

(** C2, as stated, fails: a first call on [Ex.fast] pays the loan off in two
    months and zeroes the engine's extra payment at the clamp, so a second
    call on the same engine runs the whole twelve months. *)
Lemma amortization_repeat_differs :
  exists r1 self1 r2 self2,
    Engine.calculate_amortization Ex.fast = Ok (r1, self1) /\
    Engine.calculate_amortization self1 = Ok (r2, self2) /\
    Engine.final_payment_month r1 = 2%Z /\
    Engine.final_payment_month r2 = 12%Z /\
    r1 <> r2 /\
    ~ Engine.extra_payment self1 == Engine.extra_payment Ex.fast.
Proof.
  destruct (Engine.calculate_amortization Ex.fast) as [[r1 self1]|x] eqn:E1;
    [|vm_compute in E1; discriminate].
  assert (H1 : self1 = Engine.set_extra_payment Ex.fast 0
               /\ Engine.final_payment_month r1 = 2%Z).
  { vm_compute in E1. injection E1 as <- <-. split; reflexivity. }
  destruct H1 as [-> Hm1].
  assert (Hterm : (1 <= Engine.term_years (Engine.set_extra_payment Ex.fast 0))%Z)
    by (simpl; lia).
  destruct (no_extra_full_term (Engine.set_extra_payment Ex.fast 0)
              eq_refl eq_refl Hterm (Qeq_refl 0))
    as (r2 & self2 & E2 & Hm2 & _).
  exists r1, (Engine.set_extra_payment Ex.fast 0), r2, self2.
  split; [reflexivity|]. split; [exact E2|]. split; [exact Hm1|].
  split; [exact Hm2|]. split.
  - intros ->. rewrite Hm1 in Hm2. discriminate.
  - cbn [Engine.set_extra_payment Engine.extra_payment Ex.fast]. discriminate.
Qed.

(** ** A larger extra payment in the schedule generator *)

Section Monotone.

Import Engine Sched.

Variables payment rate : Q.
Hypothesis Hrate : 0 <= rate.




End Monotone.


(** ** Validation and the projection *)

Section Projection.

Import Calculator Proj.

Lemma validate_inputs_true (i : inputs) :
  validate_inputs i = true ->
  0 < loan_seeking_var i /\ loan_seeking_var i <= 100000000 /\
  0 <= down_payment_var i /\ down_payment_var i < loan_seeking_var i /\
  0 < interest_rate_var i /\ interest_rate_var i <= 30 /\
  0 <= principal_payment_var i /\ 0 <= extra_payment_var i /\
  0 <= monthly_fee_var i.
Proof.
  unfold validate_inputs, Py.geb.
  repeat match goal with
         | |- context [if Qle_bool ?a ?b then _ else _] =>
             let E := fresh "E" in
             destruct (Qle_bool a b) eqn:E;
             [cbv iota; discriminate | apply leb_false in E]
         | |- context [if Py.gtb ?a ?b then _ else _] =>
             let E := fresh "E" in
             destruct (Py.gtb a b) eqn:E;
             [cbv iota; discriminate | apply gtb_false in E]
         end.
  intros _. repeat split; assumption.
Qed.

Variable i : inputs.
Hypothesis Hvalid : validate_inputs i = true.

Lemma loan_amount_pos : 0 < loan_amount_of i.
Proof.
  destruct (validate_inputs_true i Hvalid) as (H1 & _ & H3 & H4 & _).
  unfold loan_amount_of. destruct (down_payment_mode i); lra.
Qed.

Lemma monthly_rate_pos : 0 < monthly_rate_of i.
Proof.
  destruct (validate_inputs_true i Hvalid) as (_ & _ & _ & _ & H5 & _).
  unfold monthly_rate_of.
  apply Qdiv_pos; [apply Qdiv_pos|]; [exact H5 | reflexivity..].
Qed.

Lemma discount_lt_1 : / (1 + monthly_rate_of i) ^ 360 < 1.
Proof.
  pose proof monthly_rate_pos as Hr.
  assert (Hg : 1 < (1 + monthly_rate_of i) ^ 360)
    by (apply Qpower_1_lt; [lra | lia]).
  set (X := (1 + monthly_rate_of i) ^ 360) in *.
  assert (HX : / X * X == 1) by (field; lra).
  assert (Hpos : 0 < / X) by (apply Qinv_lt_0_compat; lra).
  nra.
Qed.

End Projection.

Section Calculate.

Import Calculator Proj.

Variable i : inputs.
Hypothesis Hvalid : validate_inputs i = true.

(** Past validation, the [try] block gets as far as the payoff times, with
    the interest of the 360-month annuity as [total_interest]. *)
Lemma calculate_try_valid :
  calculate_try i =
  (times <- payoff_times (loan_amount_of i) (monthly_rate_of i)
              (principal_payment_var i) (extra_payment_var i)
              (annuity_interest_360 (loan_amount_of i) (monthly_rate_of i)) ;;
   Ok (Some (display_of i times))).
Proof.
  destruct (validate_inputs_true i Hvalid) as (H1 & _ & H3 & H4 & _).
  pose proof (monthly_rate_pos i Hvalid) as Hr.
  pose proof (discount_lt_1 i Hvalid) as Hd.
  unfold calculate_try, display_of, loan_amount_of. fold (monthly_rate_of i).
  assert (Hgeb : Py.geb (match down_payment_mode i with
                         | Auto => loan_seeking_var i * (15 # 100)
                         | Manual => down_payment_var i
                         end) (loan_seeking_var i) = false).
  { unfold Py.geb. apply leb_false. destruct (down_payment_mode i); lra. }
  rewrite Hgeb. rewrite pow_ok by lra. cbn [bind].
  rewrite div_ok.
  - destruct (down_payment_mode i); reflexivity.
  - change ((1 + monthly_rate_of i) ^ (-360))
      with (/ (1 + monthly_rate_of i) ^ 360). lra.
Qed.

Lemma calculate_valid (times : Z * Z * Z * Z * Q) :
  payoff_times (loan_amount_of i) (monthly_rate_of i)
    (principal_payment_var i) (extra_payment_var i)
    (annuity_interest_360 (loan_amount_of i) (monthly_rate_of i)) = Ok times ->
  calculate i = Calculated (display_of i times).
Proof.
  intro Ht. unfold calculate. rewrite Hvalid. cbn [negb].
  rewrite calculate_try_valid, Ht. reflexivity.
Qed.

(** No principal payment and no extra payment: the division by
    [principal_payment * 12] raises. *)
Lemma payoff_times_zero (L mr pp e ti : Q) :
  pp == 0 -> e == 0 -> payoff_times L mr pp e ti = Raise ZeroDivisionError.
Proof.
  intros Hpp He. unfold payoff_times.
  assert (Hg : Py.gtb e 0 = false) by (apply gtb_false; lra).
  rewrite Hg. rewrite div_zero by lra. reflexivity.
Qed.

End Calculate.

Lemma payoff_times_no_principal (L mr pp e ti : Q) :
  pp == 0 -> Calculator.payoff_times L mr pp e ti = Raise ZeroDivisionError.
Proof.
  intro Hpp. unfold Calculator.payoff_times.
  destruct (Py.gtb e 0) eqn:Hg.
  - apply gtb_true in Hg. rewrite div_ok by lra. cbn [bind].
    rewrite div_zero by exact Hpp. reflexivity.
  - rewrite div_zero by lra. reflexivity.
Qed.

(** What a completed [calculate] shows, from the payoff times. *)
Lemma calculated_display (i : Calculator.inputs) (d : Calculator.display) :
  Calculator.calculate i = Calculator.Calculated d ->
  Calculator.validate_inputs i = true /\
  0 < Calculator.principal_payment_var i /\
  exists times,
    Calculator.payoff_times (Proj.loan_amount_of i) (Proj.monthly_rate_of i)
      (Calculator.principal_payment_var i) (Calculator.extra_payment_var i)
      (Proj.annuity_interest_360 (Proj.loan_amount_of i)
         (Proj.monthly_rate_of i)) = Ok times /\
    d = Proj.display_of i times.
Proof.
  unfold Calculator.calculate.
  destruct (Calculator.validate_inputs i) eqn:Hvalid; cbn [negb];
    [|discriminate].
  rewrite (calculate_try_valid i Hvalid).
  destruct (validate_inputs_true i Hvalid)
    as (_ & _ & _ & _ & _ & _ & Hpp & _).
  destruct (Calculator.payoff_times _ _ _ _ _) as [times|x] eqn:Ht;
    cbn [bind]; [|discriminate].
  intro H. injection H as <-.
  split; [reflexivity|]. split; [|exists times; now split].
  destruct (Qlt_le_dec 0 (Calculator.principal_payment_var i)) as [H|H];
    [exact H|].
  rewrite payoff_times_no_principal in Ht by lra. discriminate Ht.
Qed.

(** C1, as the code has it.  With no principal payment and no extra payment,
    input that passes validation makes the payoff projection divide by zero;
    the [ZeroDivisionError] is caught by the handler of [calculate], which
    ends with an error box and no result. *)
Theorem zero_payment_raises (i : Calculator.inputs) :
  Calculator.validate_inputs i = true ->
  Calculator.principal_payment_var i == 0 ->
  Calculator.extra_payment_var i == 0 ->
  Calculator.calculate_try i = Raise ZeroDivisionError /\
  Calculator.calculate i = Calculator.CalculationError ZeroDivisionError.
Proof.
  intros Hvalid Hpp He.
  assert (Htry : Calculator.calculate_try i = Raise ZeroDivisionError).
  { rewrite (calculate_try_valid i Hvalid).
    now rewrite payoff_times_zero. }
  split; [exact Htry|].
  unfold Calculator.calculate. now rewrite Hvalid, Htry.
Qed.

Lemma zero_payment_raises_witness :
  Calculator.calculate_try Ex.idle = Raise ZeroDivisionError /\
  Calculator.calculate Ex.idle = Calculator.CalculationError ZeroDivisionError.
Proof.
  apply (zero_payment_raises Ex.idle); reflexivity.
Defined.

(** C1, as stated, fails: [Ex.idle] has no principal payment and no extra
    payment, validation accepts it, and the projection divides by zero
    instead of reporting a result. *)
Lemma zero_payment_not_guarded :
  Calculator.principal_payment_var Ex.idle == 0 /\
  Calculator.extra_payment_var Ex.idle == 0 /\
  Calculator.validate_inputs Ex.idle = true /\
  Calculator.calculate_try Ex.idle = Raise ZeroDivisionError /\
  Calculator.calculate Ex.idle = Calculator.CalculationError ZeroDivisionError /\
  ~ (Calculator.validate_inputs Ex.idle = false \/
     exists d, Calculator.calculate_try Ex.idle = Ok d).
Proof.
  assert (Hvalid : Calculator.validate_inputs Ex.idle = true) by reflexivity.
  assert (Htry : Calculator.calculate_try Ex.idle = Raise ZeroDivisionError).
  { rewrite (calculate_try_valid Ex.idle Hvalid).
    rewrite payoff_times_zero by reflexivity. reflexivity. }
  split; [reflexivity|]. split; [reflexivity|]. split; [exact Hvalid|].
  split; [exact Htry|]. split.
  - unfold Calculator.calculate. now rewrite Hvalid, Htry.
  - intros [H | [d H]]; [rewrite Hvalid in H; discriminate H
                        | rewrite Htry in H; discriminate H].
Qed.


(** ** Truncation and the flat interest sum *)

Lemma int_floor (x : Q) : 0 <= x -> Py.int x = Qfloor x.
Proof.
  destruct x as [n d]. unfold Qle, Py.int, Qfloor. simpl. intro H.
  apply Z.quot_div_nonneg; lia.
Qed.

Lemma int_mono (x y : Q) : 0 <= x -> x <= y -> (Py.int x <= Py.int y)%Z.
Proof.
  intros Hx Hxy. rewrite !int_floor by lra. now apply Qfloor_resp_le.
Qed.

Lemma int_below (x : Q) : 0 <= x -> inject_Z (Py.int x) <= x.
Proof.
  intro Hx. rewrite int_floor by exact Hx. apply Qfloor_le.
Qed.

Lemma int_nonneg (x : Q) : 0 <= x -> (0 <= Py.int x)%Z.
Proof.
  intro Hx. change 0%Z with (Py.int 0). apply int_mono; [lra | exact Hx].
Qed.

Lemma Qdiv_antitone (L a b : Q) : 0 <= L -> 0 < a -> a <= b -> L / b <= L / a.
Proof.
  intros HL Ha Hab.
  apply Qle_shift_div_l; [lra|].
  assert (E : L / b * a == L * (a / b)) by (field; lra).
  rewrite E.
  assert (H1 : a / b <= 1) by (apply Qle_shift_div_r; lra).
  assert (H0 : 0 <= a / b) by (apply Qdiv_nonneg; lra).
  nra.
Qed.

Lemma range_length (n : Z) : length (Py.range n) = Z.to_nat n.
Proof.
  unfold Py.range. now rewrite length_map, length_seq.
Qed.

Section Flat.

Import Calculator Proj.

Variable mr : Q.
Hypothesis Hmr : 0 <= mr.

(** The interest loop adds up the flat interest sum. *)
Lemma interest_loop_flat (t : Q) (ms : list Z) (b acc : Q) :
  snd (interest_loop mr t ms (b, acc))
  == acc + flat_interest b mr t (length ms).
Proof.
  revert b acc. induction ms as [|m ms IH]; intros b acc;
    cbn [interest_loop length flat_interest fst snd].
  - ring.
  - rewrite IH. ring.
Qed.






End Flat.


(** ** The payoff times *)

Section PayoffTimes.

Import Calculator Proj.

Variables L mr pp ti : Q.
Hypothesis Hpp : 0 < pp.

Lemma payoff_times_extra (e : Q) :
  0 < e ->
  payoff_times L mr pp e ti
  = Ok ((Py.int (L / (pp + e)) / 12)%Z,
        (Py.int (L / (pp + e)) mod 12)%Z,
        ((Py.int (L / pp) - Py.int (L / (pp + e))) / 12)%Z,
        ((Py.int (L / pp) - Py.int (L / (pp + e))) mod 12)%Z,
        ti - snd (interest_loop mr (pp + e)
                    (Py.range (Py.int (L / (pp + e)))) (L, 0))).
Proof.
  intro He. unfold payoff_times.
  assert (Hg : Py.gtb e 0 = true) by (now apply gtb_true).
  rewrite Hg. rewrite !div_ok by lra. reflexivity.
Qed.

Lemma payoff_times_plain (e : Q) :
  e <= 0 ->
  payoff_times L mr pp e ti = Ok (Py.int (L / (pp * 12)), 0%Z, 0%Z, 0%Z, 0).
Proof.
  intro He. unfold payoff_times.
  assert (Hg : Py.gtb e 0 = false) by (now apply gtb_false).
  rewrite Hg. rewrite div_ok by lra. reflexivity.
Qed.


End PayoffTimes.

(** ** Interest saved *)

(** What [calculate] shows in the branch with a positive extra payment. *)
Lemma calculate_extra_saved (i : Calculator.inputs) :
  Calculator.validate_inputs i = true ->
  0 < Calculator.principal_payment_var i ->
  0 < Calculator.extra_payment_var i ->
  exists d,
    Calculator.calculate i = Calculator.Calculated d /\
    Calculator.d_total_interest d
    = Proj.annuity_interest_360 (Proj.loan_amount_of i) (Proj.monthly_rate_of i) /\
    Calculator.d_interest_saved d
    == Proj.annuity_interest_360 (Proj.loan_amount_of i) (Proj.monthly_rate_of i)
       - Proj.flat_interest (Proj.loan_amount_of i) (Proj.monthly_rate_of i)
           (Calculator.principal_payment_var i + Calculator.extra_payment_var i)
           (Z.to_nat
              (Py.int (Proj.loan_amount_of i
                       / (Calculator.principal_payment_var i
                          + Calculator.extra_payment_var i)))).
Proof.
  intros Hvalid Hpp He.
  eexists. split.
  - apply (calculate_valid i Hvalid). now apply payoff_times_extra.
  - unfold Proj.display_of.
    cbn [Calculator.d_total_interest Calculator.d_interest_saved snd].
    split; [reflexivity|].
    rewrite interest_loop_flat, range_length. ring.
Qed.


(** C3, as the code has it.  Whenever [calculate] completes on input with a
    positive extra payment, the total interest it shows is the interest of
    a 360-month annuity on the loan, and the interest saved is that annuity
    interest minus the interest accrued by the flat reduction of principal
    plus extra payment over [int(loan_amount / (principal + extra))]
    months. *)
Theorem interest_saved_annuity_baseline (i : Calculator.inputs)
  (d : Calculator.display) :
  Calculator.calculate i = Calculator.Calculated d ->
  0 < Calculator.extra_payment_var i ->
  Calculator.d_total_interest d
  = Proj.annuity_interest_360 (Proj.loan_amount_of i) (Proj.monthly_rate_of i) /\
  Calculator.d_interest_saved d
  == Proj.annuity_interest_360 (Proj.loan_amount_of i) (Proj.monthly_rate_of i)
     - Proj.flat_interest (Proj.loan_amount_of i) (Proj.monthly_rate_of i)
         (Calculator.principal_payment_var i + Calculator.extra_payment_var i)
         (Z.to_nat
            (Py.int (Proj.loan_amount_of i
                     / (Calculator.principal_payment_var i
                        + Calculator.extra_payment_var i)))).
Proof.
  intros Hc He.
  destruct (calculated_display i d Hc) as (_ & Hpp & times & Ht & ->).
  rewrite (payoff_times_extra _ _ _ _ Hpp _ He) in Ht. injection Ht as <-.
  unfold Proj.display_of.
  cbn [Calculator.d_total_interest Calculator.d_interest_saved snd].
  split; [reflexivity|].
  rewrite interest_loop_flat, range_length. ring.
Qed.

Lemma interest_saved_annuity_baseline_witness :
  exists d,
    Calculator.calculate Ex.brisk = Calculator.Calculated d /\
    Calculator.d_interest_saved d
    == Proj.annuity_interest_360 1200 (12 / 100 / 12)
       - Proj.flat_interest 1200 (12 / 100 / 12) (100 + 100)
           (Z.to_nat (Py.int (1200 / (100 + 100)))).
Proof.
  pose proof (calculate_valid Ex.brisk eq_refl _
                (payoff_times_extra (Proj.loan_amount_of Ex.brisk)
                   (Proj.monthly_rate_of Ex.brisk) 100
                   (Proj.annuity_interest_360 (Proj.loan_amount_of Ex.brisk)
                      (Proj.monthly_rate_of Ex.brisk))
                   eq_refl 100 eq_refl)) as Hc.
  eexists. split; [exact Hc|].
  exact (proj2 (interest_saved_annuity_baseline Ex.brisk _ Hc eq_refl)).
Defined.

(** C3, as stated, fails.  For [Ex.brisk] (1200 at 12 %, 100 principal, 100
    extra) the flat simulation with the principal payment alone accrues 78
    and the one with the extra payment 42, a difference of 36; the code
    reports an interest saved above 3000, measured from the annuity. *)
Lemma interest_saved_not_flat_baseline :
  exists d,
    Calculator.calculate Ex.brisk = Calculator.Calculated d /\
    snd (Proj.flat_simulation 1200 (1 # 100) 100 360) == 78 /\
    snd (Proj.flat_simulation 1200 (1 # 100) (100 + 100) 360) == 42 /\
    3000 < Calculator.d_interest_saved d /\
    ~ Calculator.d_interest_saved d
      == snd (Proj.flat_simulation (Proj.loan_amount_of Ex.brisk)
                (Proj.monthly_rate_of Ex.brisk) 100 360)
         - snd (Proj.flat_simulation (Proj.loan_amount_of Ex.brisk)
                  (Proj.monthly_rate_of Ex.brisk) (100 + 100) 360).
Proof.
  destruct (calculate_extra_saved Ex.brisk eq_refl eq_refl eq_refl)
    as (d & Hc & _ & Hs).
  assert (Hbig : 3000 < Calculator.d_interest_saved d).
  { rewrite Hs. vm_compute. reflexivity. }
  exists d. split; [exact Hc|].
  split; [vm_compute; reflexivity|]. split; [vm_compute; reflexivity|].
  split; [exact Hbig|].
  intro H. rewrite H in Hbig. revert Hbig. vm_compute. discriminate.
Qed.


(** ** The yearly breakdown *)

Section Yearly.

Import Calculator Proj.

Variables mr pp e fee : Q.
Hypothesis Hmr : 0 <= mr.
Hypothesis Hpp : 0 <= pp.
Hypothesis He : 0 <= e.
Hypothesis Hfee : 0 <= fee.




End Yearly.





(** ** A larger extra payment in the projection *)

Lemma validate_with_extra (i : Calculator.inputs) (e2 : Q) :
  Calculator.validate_inputs i = true -> 0 <= e2 ->
  Calculator.validate_inputs (Proj.with_extra i e2) = true.
Proof.
  intros Hvalid He2.
  destruct (validate_inputs_true i Hvalid)
    as (H1 & H2 & H3 & H4 & H5 & H6 & H7 & H8 & H9).
  unfold Calculator.validate_inputs, Proj.with_extra, Py.geb.
  cbn [Calculator.loan_seeking_var Calculator.down_payment_var
       Calculator.interest_rate_var Calculator.principal_payment_var
       Calculator.extra_payment_var Calculator.monthly_fee_var].
  rewrite (proj2 (leb_false _ _) H1), (proj2 (gtb_false _ _) H2),
    (proj2 (gtb_false _ _) H3), (proj2 (leb_false _ _) H4),
    (proj2 (leb_false _ _) H5), (proj2 (gtb_false _ _) H6),
    (proj2 (gtb_false _ _) H7), (proj2 (gtb_false _ _) He2),
    (proj2 (gtb_false _ _) H9).
  reflexivity.
Qed.

Section ProjectionMonotone.

Import Calculator Proj.

Variables L mr pp ti : Q.
Hypothesis HL : 0 < L.
Hypothesis Hmr : 0 <= mr.
Hypothesis Hpp : 0 < pp.


End ProjectionMonotone.





(** ** The recorded principal part *)

Lemma loop_principal (payment rate : Q) (ms : list Z) (st : Engine.loop_state) :
  Forall (fun e => Engine.e_principal e = payment - Engine.e_interest e)
    (Engine.l_schedule st) ->
  Forall (fun e => Engine.e_principal e = payment - Engine.e_interest e)
    (Engine.l_schedule (Engine.loop payment rate ms st)).
Proof.
  revert st. induction ms as [|m ms IH]; intros st H; simpl; [exact H|].
  destruct (Qle_bool (Engine.l_balance st) 0); [exact H|].
  apply IH. unfold Engine.loop_body. cbn [Engine.l_schedule].
  apply Forall_app. split; [exact H|]. constructor; [reflexivity | constructor].
Qed.

Section Overshoot.

Import Engine Sched.

Variable self : t.
Hypothesis Hloan : 0 < loan_amount self.
Hypothesis Hrate : 0 < interest_rate self.
Hypothesis Hterm : (1 <= term_years self)%Z.
Hypothesis Hextra : 0 <= extra_payment self.

Variable payment : Q.
Hypothesis Hpay :
  payment == loan_amount self * rate_of self
             * (1 + rate_of self) ^ (term_years self * 12)
             / ((1 + rate_of self) ^ (term_years self * 12) - 1).
Hypothesis Hgt : loan_amount self * rate_of self < payment.

Lemma extra_balance_step (k : nat) :
  extra_balance self k * (1 + rate_of self) - payment - extra_payment self
  == extra_balance self (S k).
Proof.
  pose proof (rate_of_pos self Hrate) as Hr.
  unfold extra_balance.
  rewrite <- (closed_balance_step self Hrate Hterm payment Hpay k).
  rewrite Qpower_succ by lra.
  set (Y := (1 + rate_of self) ^ Z.of_nat k).
  field. lra.
Qed.

Lemma extra_balance_le_loan (k : nat) : extra_balance self k <= loan_amount self.
Proof.
  pose proof (rate_of_pos self Hrate) as Hr.
  pose proof (growth_gt_1 (rate_of self) _ (months_pos self Hterm) Hr) as Hg.
  assert (Hk : 1 <= (1 + rate_of self) ^ Z.of_nat k)
    by (apply Qpower_1_le; [lra | lia]).
  unfold extra_balance, closed_balance. cbv zeta.
  set (X := (1 + rate_of self) ^ (term_years self * 12)) in *.
  set (Y := (1 + rate_of self) ^ Z.of_nat k) in *.
  assert (H1 : loan_amount self * (X - Y) / (X - 1) <= loan_amount self).
  { apply Qle_shift_div_r; [lra|]. nra. }
  assert (H2 : 0 <= extra_payment self * (Y - 1) / rate_of self).
  { apply Qdiv_nonneg; [|exact Hr]. apply Qmult_le_0_compat; lra. }
  lra.
Qed.

Lemma extra_balance_decreasing (k : nat) :
  extra_balance self (S k) <= extra_balance self k.
Proof.
  pose proof (rate_of_pos self Hrate) as Hr.
  pose proof (extra_balance_le_loan k) as Hle.
  rewrite <- extra_balance_step.
  assert (extra_balance self k * rate_of self
          <= loan_amount self * rate_of self)
    by (apply Qmult_le_compat_r; lra).
  lra.
Qed.

Lemma extra_balance_antitone (j m : nat) :
  (j <= m)%nat -> extra_balance self m <= extra_balance self j.
Proof.
  induction 1 as [|m _ IH]; [lra|].
  pose proof (extra_balance_decreasing m). lra.
Qed.

Lemma body_extra_inv (k : nat) (st : loop_state) :
  0 <= extra_balance self (S k) ->
  extra_inv self k st ->
  extra_inv self (S k) (loop_body payment (rate_of self) (Z.of_nat (S k)) st).
Proof.
  intros Hnn (Hb & Hs & Hlen & Hsum).
  pose proof (extra_balance_step k) as Hstep. rewrite <- Hb in Hstep.
  assert (Hc : Py.gtb (payment - l_balance st * rate_of self
                       + extra_payment (l_self st)) (l_balance st) = false).
  { apply gtb_false. rewrite Hs. lra. }
  unfold extra_inv, loop_body. rewrite Hc.
  cbn [l_balance l_self l_schedule]. repeat split.
  - rewrite <- Hstep, Hs. ring.
  - exact Hs.
  - rewrite length_app. simpl. lia.
  - rewrite sum_principal_snoc. cbn [e_principal]. rewrite Hsum, Hs.
    rewrite Nat2Z.inj_succ. unfold Z.succ. rewrite inject_Z_plus.
    change (inject_Z 1) with 1. ring.
Qed.

Lemma loop_extra_inv (d k : nat) (st : loop_state) :
  0 < extra_balance self (k + d) ->
  extra_inv self k st ->
  extra_inv self (k + d)
    (loop payment (rate_of self) (map Z.of_nat (seq (S k) d)) st).
Proof.
  revert k st. induction d as [|d IH]; intros k st Hpos Hinv.
  - simpl. now rewrite Nat.add_0_r.
  - cbn [seq map].
    assert (Hk : 0 < l_balance st).
    { destruct Hinv as (Hb & _). rewrite Hb.
      pose proof (extra_balance_antitone k (k + S d) ltac:(lia)). lra. }
    rewrite loop_step by (now apply leb_false).
    replace (k + S d)%nat with (S k + d)%nat in * by lia.
    apply IH; [exact Hpos|]. apply body_extra_inv; [|exact Hinv].
    pose proof (extra_balance_antitone (S k) (S k + d) ltac:(lia)). lra.
Qed.

(** A schedule that runs [m + 1 >= 2] months unclamped and clamps in the
    next one, before the end of the term. *)
Lemma clamp_after (m : nat) :
  (Z.of_nat (S (S m)) <= term_years self * 12)%Z ->
  0 < extra_balance self (S m) ->
  extra_balance self (S (S m)) < 0 ->
  exists pre e_prev e_last,
    l_schedule (loop payment (rate_of self) (months_of self) (init self))
    = pre ++ [e_prev; e_last] /\
    length pre = m /\
    e_balance e_prev == extra_balance self (S m) /\
    e_principal e_last == payment - extra_balance self (S m) * rate_of self /\
    e_balance e_last == 0 /\
    sum_principal (pre ++ [e_prev; e_last])
    == loan_amount self - extra_balance self (S (S m))
       - inject_Z (Z.of_nat (S (S m))) * extra_payment self.
Proof.
  intros Hm Hpos Hneg.
  pose proof (rate_of_pos self Hrate) as Hr.
  set (n := Z.to_nat (term_years self * 12)).
  assert (Hsplit : months_of self
                   = map Z.of_nat (seq 1 (S m))
                     ++ Z.of_nat (S (S m))
                        :: map Z.of_nat (seq (S (S (S m))) (n - S (S m)))).
  { unfold months_of, Py.range1. fold n.
    replace n with (S m + S (n - S (S m)))%nat at 1 by lia.
    rewrite seq_app, map_app. reflexivity. }
  rewrite Hsplit, loop_app.
  assert (Hinit : extra_inv self 0 (init self)).
  { pose proof (growth_gt_1 (rate_of self) _ (months_pos self Hterm) Hr) as Hg.
    unfold extra_inv, init, extra_balance, closed_balance.
    cbn [l_balance l_self l_schedule length sum_principal fold_right Z.of_nat].
    rewrite Qpower_0_r. change (inject_Z 0) with 0.
    repeat split; try reflexivity; [field; lra | ring]. }
  pose proof (loop_extra_inv (S m) 0 (init self) Hpos Hinit) as Hinv.
  pose proof (loop_balance_inv self Hloan Hrate payment Hgt
                (map Z.of_nat (seq 1 (S m))) (init self)
                (init_balance_inv self Hloan Hextra)) as Hbal.
  cbn [Nat.add] in Hinv.
  set (st := loop payment (rate_of self) (map Z.of_nat (seq 1 (S m)))
               (init self)) in *.
  destruct Hinv as (Hb & Hs & Hlen & Hsum).
  destruct Hbal as (_ & _ & _ & _ & Hlast & _).
  pose proof (extra_balance_step (S m)) as Hstep. rewrite <- Hb in Hstep.
  assert (Hrun : Qle_bool (l_balance st) 0 = false)
    by (apply leb_false; lra).
  assert (Hclamp : Py.gtb (payment - l_balance st * rate_of self
                           + extra_payment (l_self st)) (l_balance st) = true).
  { apply gtb_true. rewrite Hs. lra. }
  rewrite loop_step by exact Hrun.
  rewrite loop_stop.
  2:{ unfold loop_body. rewrite Hclamp. cbn [l_balance].
      apply Qle_bool_iff. lra. }
  unfold loop_body. rewrite Hclamp. cbn [l_schedule].
  destruct (l_schedule st) as [|x l] eqn:Es; [discriminate Hlen|].
  destruct (exists_last (l := x :: l)) as (pre & e_prev & Hpre);
    [discriminate|].
  rewrite Hpre in *. clear Es.
  rewrite length_app in Hlen. cbn [length] in Hlen.
  rewrite map_app in Hlast. cbn [map] in Hlast.
  match type of Hlast with
  | last (?a :: ?l' ++ [?y]) _ == _ =>
      change (a :: l' ++ [y]) with ((a :: l') ++ [y]) in Hlast
  end.
  rewrite last_last in Hlast.
  eexists pre, e_prev, _. split; [rewrite <- app_assoc; reflexivity|].
  cbn [e_balance e_principal].
  split; [lia|]. split; [lra|]. split; [now rewrite Hb|]. split; [ring|].
  change (pre ++ [e_prev; ?e]) with (pre ++ [e_prev] ++ [e]).
  rewrite app_assoc, sum_principal_snoc, Hsum. cbn [e_principal].
  rewrite <- Hstep.
  rewrite (Nat2Z.inj_succ (S m)). unfold Z.succ. rewrite inject_Z_plus.
  change (inject_Z 1) with 1. ring.
Qed.

End Overshoot.

(** A positive extra payment that pays the loan off before the end of the
    term can leave a last entry whose principal part is above what its
    month took off the balance, and principal parts that add up to more
    than the loan; the closed form tells when. *)
Lemma early_payoff_overshoot (self : Engine.t) (m : nat) :
  0 < Engine.loan_amount self ->
  0 < Engine.interest_rate self ->
  (1 <= Engine.term_years self)%Z ->
  0 <= Engine.extra_payment self ->
  (Z.of_nat (S (S m)) < Engine.term_years self * 12)%Z ->
  0 < Sched.extra_balance self (S m) ->
  Sched.extra_balance self (S (S m))
  + inject_Z (Z.of_nat (S (S m))) * Engine.extra_payment self < 0 ->
  exists r self' pre e_prev e_last,
    Engine.calculate_amortization self = Ok (r, self') /\
    Engine.schedule r = pre ++ [e_prev; e_last] /\
    Engine.final_payment_month r = Z.of_nat (S (S m)) /\
    Sched.reduction (Engine.e_balance e_prev) e_last
    < Engine.e_principal e_last /\
    Engine.loan_amount self < Sched.sum_principal (Engine.schedule r).
Proof.
  intros Hloan Hrate Hterm Hextra Hm Hpos Hneg.
  destruct (valid_payment self Hloan Hrate Hterm) as (payment & Hpay & Heq & Hgt).
  assert (Hk : 1 <= inject_Z (Z.of_nat (S (S m)))).
  { change 1 with (inject_Z 1). rewrite <- Zle_Qle. lia. }
  assert (Hke : Engine.extra_payment self
                <= inject_Z (Z.of_nat (S (S m))) * Engine.extra_payment self)
    by nra.
  destruct (clamp_after self Hloan Hrate Hterm Hextra payment Heq Hgt m
              ltac:(lia) Hpos ltac:(lra))
    as (pre & e_prev & e_last & Hs & Hlen & Hprev & Hprin & Hzero & Hsum).
  pose proof (extra_balance_step self Hrate Hterm payment Heq (S m)) as Hstep.
  unfold Engine.calculate_amortization.
  fold (Sched.rate_of self). rewrite Hpay. cbn [bind].
  fold (Sched.months_of self) (Sched.init self).
  exists (Engine.mk_result (pre ++ [e_prev; e_last])
            (Engine.l_total_interest
               (Engine.loop payment (Sched.rate_of self) (Sched.months_of self)
                  (Sched.init self)))
            (Z.of_nat (S (S m)))).
  eexists. exists pre, e_prev, e_last.
  split.
  { rewrite Hs. unfold Py.len. rewrite length_app. cbn [length].
    rewrite Hlen. replace (m + 2)%nat with (S (S m)) by lia. reflexivity. }
  cbn [Engine.schedule Engine.final_payment_month].
  split; [reflexivity|]. split; [reflexivity|]. split.
  - unfold Sched.reduction. rewrite Hprev, Hprin, Hzero. lra.
  - rewrite Hsum. lra.
Qed.

(** C10.  Every entry records as [principal] the payment of the annuity
    formula minus the interest of its month, whether or not the month
    clamps.  And there is a schedule with a positive extra payment that is
    paid off before the end of the term (1200 at 30 % over seven years with
    0.2 extra: 83 entries for 84 months) in which the last entry's
    [principal] is above what its month took off the balance, and in which
    the [principal] fields add up to more than the loan. *)
Theorem principal_field_unclamped :
  (forall self r self',
     Engine.calculate_amortization self = Ok (r, self') ->
     exists payment,
       Engine.calculate_monthly_payment self (Sched.rate_of self)
         (Engine.term_years self * 12) = Ok payment /\
       Forall (fun e => Engine.e_principal e = payment - Engine.e_interest e)
         (Engine.schedule r)) /\
  (exists r self' pre e_prev e_last,
     0 < Engine.extra_payment Ex.slow /\
     Engine.calculate_amortization Ex.slow = Ok (r, self') /\
     Engine.schedule r = pre ++ [e_prev; e_last] /\
     Engine.final_payment_month r = 83%Z /\
     (Engine.final_payment_month r < Engine.term_years Ex.slow * 12)%Z /\
     Sched.reduction (Engine.e_balance e_prev) e_last
     < Engine.e_principal e_last /\
     Engine.loan_amount Ex.slow < Sched.sum_principal (Engine.schedule r)).
Proof.
  split.
  - intros self r self' Hc. apply amortization_unfold in Hc.
    destruct Hc as (payment & Hpay & -> & _).
    exists payment. split; [exact Hpay|].
    cbn [Engine.schedule]. apply loop_principal. constructor.
  - assert (H82 : 0 < Sched.extra_balance Ex.slow 82)
      by (vm_compute; reflexivity).
    assert (H83 : Sched.extra_balance Ex.slow 83
                  + inject_Z (Z.of_nat 83) * Engine.extra_payment Ex.slow < 0)
      by (vm_compute; reflexivity).
    assert (Hterm : (1 <= Engine.term_years Ex.slow)%Z) by (simpl; lia).
    assert (Hm : (Z.of_nat 83 < Engine.term_years Ex.slow * 12)%Z)
      by (simpl; lia).
    destruct (early_payoff_overshoot Ex.slow 81 eq_refl eq_refl Hterm
                ltac:(simpl; discriminate) Hm H82 H83)
      as (r & self' & pre & e_prev & e_last & Hc & Hs & Hf & Hred & Hsum).
    exists r, self', pre, e_prev, e_last.
    split; [reflexivity|]. split; [exact Hc|]. split; [exact Hs|].
    split; [exact Hf|]. split; [rewrite Hf; simpl; lia|].
    split; [exact Hred | exact Hsum].
Qed.

Lemma principal_field_unclamped_witness :
  exists r self' payment,
    Engine.calculate_amortization Ex.fast = Ok (r, self') /\
    Engine.calculate_monthly_payment Ex.fast (Sched.rate_of Ex.fast)
      (Engine.term_years Ex.fast * 12) = Ok payment /\
    Forall (fun e => Engine.e_principal e = payment - Engine.e_interest e)
      (Engine.schedule r).
Proof.
  destruct (Engine.calculate_amortization Ex.fast) as [[r self']|x] eqn:E;
    [|vm_compute in E; discriminate].
  destruct (proj1 principal_field_unclamped Ex.fast r self' E)
    as (payment & Hpay & Hall).
  exists r, self', payment. split; [reflexivity|]. split; assumption.
Defined.


(** * Further properties of the schedule generator *)

Lemma fold_sum_snoc (f : Engine.entry -> Q) (l : list Engine.entry)
  (e : Engine.entry) :
  fold_right (fun x acc => f x + acc) 0 (l ++ [e])
  == fold_right (fun x acc => f x + acc) 0 l + f e.
Proof.
  induction l as [|x l IH]; cbn [app fold_right].
  - ring.
  - rewrite IH. ring.
Qed.

Lemma last_snoc_cons (a : Q) (l : list Q) (x d : Q) :
  last (a :: l ++ [x]) d = x.
Proof.
  change (a :: l ++ [x]) with ((a :: l) ++ [x]). apply last_last.
Qed.

Section Ledger.

Import Engine Sched Notion.

Variable self : t.
Variables payment rate : Q.

(** The loop never changes the loan amount or the fee of the engine. *)
Lemma body_ledger_inv (m : Z) (st : loop_state) :
  ledger_inv self st -> ledger_inv self (loop_body payment rate m st).
Proof.
  intros (Hi & Hp & Hl).
  unfold ledger_inv, loop_body, sum_interest, sum_paid in *.
  destruct (Py.gtb _ _);
    cbn [l_total_interest l_schedule l_balance l_self];
    rewrite !fold_sum_snoc, map_app; cbn [map e_balance e_interest e_payment
                                          e_fee];
    rewrite last_snoc_cons; (split; [|split]);
    try (rewrite Hi; ring); try (rewrite Hp; ring); reflexivity.
Qed.

Lemma loop_ledger_inv (ms : list Z) (st : loop_state) :
  ledger_inv self st -> ledger_inv self (loop payment rate ms st).
Proof.
  revert st. induction ms as [|m ms IH]; intros st H; simpl; [exact H|].
  destruct (Qle_bool (l_balance st) 0); [exact H|].
  apply IH, body_ledger_inv, H.
Qed.

Lemma init_ledger_inv : ledger_inv self (init self).
Proof.
  unfold ledger_inv, init, sum_interest, sum_paid. simpl.
  repeat split; ring.
Qed.

End Ledger.

(** X1.  Whenever [calculate_amortization] returns, its [total_interest] is
    the sum of the [interest] fields of the schedule. *)
Theorem total_interest_is_sum (self : Engine.t) (r : Engine.result)
  (self' : Engine.t) :
  Engine.calculate_amortization self = Ok (r, self') ->
  Engine.total_interest r == Notion.sum_interest (Engine.schedule r).
Proof.
  intro Hc. apply amortization_unfold in Hc.
  destruct Hc as (payment & _ & -> & _).
  apply (loop_ledger_inv self payment (Sched.rate_of self)
           (Sched.months_of self) (Sched.init self) (init_ledger_inv self)).
Qed.

Lemma total_interest_is_sum_witness :
  exists r self',
    Engine.calculate_amortization Ex.fast = Ok (r, self') /\
    Engine.total_interest r == Notion.sum_interest (Engine.schedule r).
Proof.
  destruct (valid_payment Ex.fast eq_refl eq_refl ltac:(simpl; lia))
    as (payment & Hpay & _).
  pose proof (amortization_fold Ex.fast payment Hpay) as Hc.
  do 2 eexists. split; [exact Hc|].
  exact (total_interest_is_sum Ex.fast _ _ Hc).
Defined.

(** X2.  Whenever [calculate_amortization] returns, the payments recorded
    in the schedule, taken without the fee, add up to the loan amount minus
    the balance the schedule ends with. *)
Theorem payments_account_for_balance (self : Engine.t) (r : Engine.result)
  (self' : Engine.t) :
  Engine.calculate_amortization self = Ok (r, self') ->
  Notion.sum_paid (Engine.schedule r)
  == Engine.loan_amount self - Notion.final_balance self r.
Proof.
  intro Hc. apply amortization_unfold in Hc.
  destruct Hc as (payment & _ & -> & _).
  destruct (loop_ledger_inv self payment (Sched.rate_of self)
              (Sched.months_of self) (Sched.init self) (init_ledger_inv self))
    as (_ & Hp & Hl).
  unfold Notion.final_balance, Sched.balances. cbn [Engine.schedule].
  rewrite Hl. exact Hp.
Qed.

Lemma payments_account_for_balance_witness :
  exists r self',
    Engine.calculate_amortization Ex.fast = Ok (r, self') /\
    Notion.sum_paid (Engine.schedule r)
    == Engine.loan_amount Ex.fast - Notion.final_balance Ex.fast r.
Proof.
  destruct (valid_payment Ex.fast eq_refl eq_refl ltac:(simpl; lia))
    as (payment & Hpay & _).
  pose proof (amortization_fold Ex.fast payment Hpay) as Hc.
  do 2 eexists. split; [exact Hc|].
  exact (payments_account_for_balance Ex.fast _ _ Hc).
Defined.

(** X3.  Whenever [calculate_amortization] returns for a valid engine, the
    schedule never records more principal payment than the loan: the
    payments without fee add up to at most the loan amount, and to exactly
    the loan amount when the schedule is shorter than the term. *)
Theorem never_overpaid (self : Engine.t) (r : Engine.result)
  (self' : Engine.t) :
  0 < Engine.loan_amount self ->
  0 < Engine.interest_rate self ->
  (1 <= Engine.term_years self)%Z ->
  0 <= Engine.extra_payment self ->
  Engine.calculate_amortization self = Ok (r, self') ->
  Notion.sum_paid (Engine.schedule r) <= Engine.loan_amount self /\
  ((Engine.final_payment_month r < Engine.term_years self * 12)%Z ->
   Notion.sum_paid (Engine.schedule r) == Engine.loan_amount self).
Proof.
  intros Hloan Hrate Hterm Hextra Hcall.
  destruct (amortization_unfold self r self' Hcall) as (payment & Hpay & Hr & _).
  destruct (valid_payment self Hloan Hrate Hterm) as (payment' & Hpay' & _ & Hgt).
  rewrite Hpay in Hpay'. injection Hpay' as <-.
  pose proof (loop_balance_inv self Hloan Hrate payment Hgt
                (Sched.months_of self) (Sched.init self)
                (init_balance_inv self Hloan Hextra)) as (H0 & _).
  destruct (loop_ledger_inv self payment (Sched.rate_of self)
              (Sched.months_of self) (Sched.init self) (init_ledger_inv self))
    as (_ & Hp & _).
  cbv zeta in Hr. subst r.
  cbn [Engine.schedule Engine.final_payment_month].
  set (st := Engine.loop payment (Sched.rate_of self) (Sched.months_of self)
               (Sched.init self)) in *.
  split; [lra|].
  intro Hshort.
  assert (Hpaid : Qle_bool (Engine.l_balance st) 0 = true).
  { apply loop_short_paid. rewrite months_of_length.
    cbn [Sched.init Engine.l_schedule length Nat.add].
    unfold Py.len in Hshort. fold st. lia. }
  apply Qle_bool_iff in Hpaid. lra.
Qed.

Lemma never_overpaid_witness :
  exists r self',
    Engine.calculate_amortization Ex.fast = Ok (r, self') /\
    Notion.sum_paid (Engine.schedule r) <= Engine.loan_amount Ex.fast /\
    ((Engine.final_payment_month r < Engine.term_years Ex.fast * 12)%Z ->
     Notion.sum_paid (Engine.schedule r) == Engine.loan_amount Ex.fast).
Proof.
  destruct (valid_payment Ex.fast eq_refl eq_refl ltac:(simpl; lia))
    as (payment & Hpay & _).
  pose proof (amortization_fold Ex.fast payment Hpay) as Hc.
  do 2 eexists. split; [exact Hc|].
  exact (never_overpaid Ex.fast _ _ eq_refl eq_refl ltac:(simpl; lia)
           ltac:(simpl; discriminate) Hc).
Defined.


(** ** Month numbers and the length of the schedule *)

Lemma loop_months (payment rate : Q) (d k : nat) (st : Engine.loop_state) :
  map Engine.e_month (Engine.l_schedule st) = map Z.of_nat (seq 1 k) ->
  map Engine.e_month
    (Engine.l_schedule
       (Engine.loop payment rate (map Z.of_nat (seq (S k) d)) st))
  = map Z.of_nat
      (seq 1 (length
                (Engine.l_schedule
                   (Engine.loop payment rate (map Z.of_nat (seq (S k) d)) st)))).
Proof.
  revert k st. induction d as [|d IH]; intros k st Hm.
  - cbn [seq map Engine.loop]. rewrite Hm.
    apply (f_equal (@length Z)) in Hm.
    rewrite !length_map, length_seq in Hm. now rewrite Hm.
  - cbn [seq map Engine.loop].
    destruct (Qle_bool (Engine.l_balance st) 0).
    + rewrite Hm. apply (f_equal (@length Z)) in Hm.
      rewrite !length_map, length_seq in Hm. now rewrite Hm.
    + apply IH. unfold Engine.loop_body. cbn [Engine.l_schedule].
      rewrite map_app, Hm. cbn [map Engine.e_month].
      rewrite seq_S, map_app. reflexivity.
Qed.

(** X4.  Whenever [calculate_amortization] returns, the entries are numbered
    1, 2, ... up to [final_payment_month], which is the number of entries
    and is at most the number of months of the term. *)
Theorem months_are_numbered (self : Engine.t) (r : Engine.result)
  (self' : Engine.t) :
  Engine.calculate_amortization self = Ok (r, self') ->
  map Engine.e_month (Engine.schedule r)
  = Py.range1 (Engine.final_payment_month r) /\
  Engine.final_payment_month r = Py.len (Engine.schedule r) /\
  (Engine.final_payment_month r <= Z.max 0 (Engine.term_years self * 12))%Z.
Proof.
  intro Hc. apply amortization_unfold in Hc.
  destruct Hc as (payment & _ & -> & _).
  cbn [Engine.schedule Engine.final_payment_month].
  split; [|split; [reflexivity|]].
  - unfold Py.range1, Py.len. rewrite Nat2Z.id.
    apply (loop_months payment (Sched.rate_of self)
             (Z.to_nat (Engine.term_years self * 12)) 0 (Sched.init self)).
    reflexivity.
  - pose proof (loop_length_le payment (Sched.rate_of self)
                  (Sched.months_of self) (Sched.init self)) as H.
    rewrite months_of_length in H. cbn [Sched.init Engine.l_schedule length] in H.
    unfold Py.len. lia.
Qed.

Lemma months_are_numbered_witness :
  exists r self',
    Engine.calculate_amortization Ex.fast = Ok (r, self') /\
    map Engine.e_month (Engine.schedule r)
    = Py.range1 (Engine.final_payment_month r) /\
    (Engine.final_payment_month r <= 12)%Z.
Proof.
  destruct (valid_payment Ex.fast eq_refl eq_refl ltac:(simpl; lia))
    as (payment & Hpay & _).
  pose proof (amortization_fold Ex.fast payment Hpay) as Hc.
  destruct (months_are_numbered Ex.fast _ _ Hc) as (H1 & _ & H3).
  do 2 eexists. split; [exact Hc|]. split; [exact H1 | exact H3].
Defined.

(** ** Edge cases of the engine *)

(** X5.  With a term of zero years the payment formula divides by zero
    whatever the loan, the rate and the extra payment are, and
    [calculate_amortization] raises. *)
Theorem zero_term_raises (self : Engine.t) :
  Engine.term_years self = 0%Z ->
  Engine.calculate_amortization self = Raise ZeroDivisionError.
Proof.
  intro Ht. unfold Engine.calculate_amortization, Engine.calculate_monthly_payment.
  rewrite Ht. cbn [Z.mul].
  destruct (Qeq_bool (Engine.interest_rate self / 100 / 12) 0).
  - rewrite div_zero by reflexivity. reflexivity.
  - unfold Py.pow. rewrite andb_false_r. cbn [bind].
    rewrite div_zero; [reflexivity|]. cbn [Qpower]. ring.
Qed.

Lemma zero_term_raises_witness :
  Engine.calculate_amortization (Engine.mk 1200 12 0 100 5)
  = Raise ZeroDivisionError.
Proof.
  apply (zero_term_raises (Engine.mk 1200 12 0 100 5)). reflexivity.
Defined.

(** X6.  Whenever [calculate_amortization] returns on an engine whose loan
    amount is not above zero, it returns an empty schedule, no interest and
    payoff month 0, and leaves the engine as it was. *)
Theorem nothing_owed (self : Engine.t) (r : Engine.result)
  (self' : Engine.t) :
  Engine.loan_amount self <= 0 ->
  Engine.calculate_amortization self = Ok (r, self') ->
  r = Engine.mk_result [] 0 0%Z /\ self' = self.
Proof.
  intros Hloan Hcall.
  destruct (amortization_unfold self r self' Hcall) as (payment & _ & Hr & Hs).
  cbv zeta in Hr. subst r self'.
  rewrite loop_stop; [split; reflexivity|].
  apply Qle_bool_iff. exact Hloan.
Qed.

Lemma nothing_owed_witness :
  exists r self',
    Engine.calculate_amortization (Engine.mk 0 12 1 100 5) = Ok (r, self') /\
    r = Engine.mk_result [] 0 0%Z /\ self' = Engine.mk 0 12 1 100 5.
Proof.
  pose proof (payment_rate_pos (Engine.mk 0 12 1 100 5)
                (Sched.rate_of (Engine.mk 0 12 1 100 5)) (1 * 12)
                ltac:(lia) eq_refl) as Hpay.
  pose proof (amortization_fold (Engine.mk 0 12 1 100 5) _ Hpay) as Hc.
  do 2 eexists. split; [exact Hc|].
  exact (nothing_owed (Engine.mk 0 12 1 100 5) _ _
           ltac:(simpl; discriminate) Hc).
Defined.


(** ** Interest and principal parts *)

Section ZeroRate.

Import Engine.

Variables payment rate : Q.
Hypothesis Hrate : rate == 0.


End ZeroRate.



(** * Further properties of the calculator *)

(** X9.  [calculate] never ends in its own down-payment error: input that
    passes validation always passes the check inside the [try] block, in
    automatic and in manual mode. *)
Theorem down_payment_check_unreachable (i : Calculator.inputs) :
  Calculator.calculate i <> Calculator.DownPaymentError.
Proof.
  unfold Calculator.calculate.
  destruct (Calculator.validate_inputs i) eqn:Hvalid; cbn [negb];
    [|discriminate].
  rewrite (calculate_try_valid i Hvalid).
  destruct (Calculator.payoff_times _ _ _ _ _); cbn [bind]; discriminate.
Qed.



Lemma int_above (x : Q) : 0 <= x -> x < inject_Z (Py.int x + 1).
Proof.
  intro Hx. rewrite int_floor by exact Hx. apply Qlt_floor.
Qed.

Section Times.

Import Calculator Proj.

Variables L mr pp ti : Q.
Hypothesis HL : 0 < L.
Hypothesis Hpp : 0 < pp.

(** The payoff times of either branch: well-formed "years, months" pairs,
    and a month count that the loan covers. *)
Lemma payoff_times_shape (e : Q) :
  0 <= e ->
  exists y m ys ms s,
    payoff_times L mr pp e ti = Ok (y, m, ys, ms, s) /\
    (0 <= y)%Z /\ (0 <= m < 12)%Z /\ (0 <= ys)%Z /\ (0 <= ms < 12)%Z /\
    inject_Z (y * 12 + m) * (pp + e) <= L /\
    L < (inject_Z (y * 12 + m) + 12) * (pp + e) /\
    (0 < e -> L < (inject_Z (y * 12 + m) + 1) * (pp + e)).
Proof.
  intro He.
  assert (Hdm : forall x, (x / 12 * 12 + x mod 12 = x)%Z).
  { intro x. pose proof (Z.div_mod x 12 ltac:(lia)). lia. }
  assert (Hmul : forall t, 0 < t -> 0 <= L / t ->
                   inject_Z (Py.int (L / t)) * t <= L /\
                   L < (inject_Z (Py.int (L / t)) + 1) * t).
  { intros t Ht Hq.
    pose proof (int_below _ Hq) as H1. pose proof (int_above _ Hq) as H2.
    rewrite inject_Z_plus in H2. change (inject_Z 1) with 1 in H2.
    assert (E : L / t * t == L) by (field; lra).
    split.
    - rewrite <- E at 2. apply Qmult_le_compat_r; lra.
    - rewrite <- E at 1. apply Qmult_lt_compat_r; lra. }
  destruct (Qlt_le_dec 0 e) as [Hpos|Hz].
  - rewrite (payoff_times_extra L mr pp ti Hpp e Hpos).
    assert (Hq : 0 <= L / (pp + e)) by (apply Qdiv_nonneg; lra).
    assert (Hq' : 0 <= L / pp) by (apply Qdiv_nonneg; lra).
    pose proof (int_nonneg _ Hq) as Hm0.
    assert (Hsave : (Py.int (L / (pp + e)) <= Py.int (L / pp))%Z).
    { apply int_mono; [exact Hq|]. apply Qdiv_antitone; lra. }
    destruct (Hmul (pp + e) ltac:(lra) Hq) as [Hlo Hhi].
    do 5 eexists. split; [reflexivity|].
    rewrite Hdm.
    split; [apply Z.div_pos; lia|]. split; [apply Z.mod_pos_bound; lia|].
    split; [apply Z.div_pos; lia|]. split; [apply Z.mod_pos_bound; lia|].
    split; [exact Hlo|]. split; [|intros _; exact Hhi].
    assert (0 <= inject_Z (Py.int (L / (pp + e)))).
    { change 0 with (inject_Z 0). rewrite <- Zle_Qle. exact Hm0. }
    nra.
  - rewrite (payoff_times_plain L mr pp ti Hpp e Hz).
    assert (He0 : e == 0) by lra.
    assert (Hq : 0 <= L / (pp * 12)) by (apply Qdiv_nonneg; lra).
    pose proof (int_nonneg _ Hq) as Hy0.
    destruct (Hmul (pp * 12) ltac:(lra) Hq) as [Hlo Hhi].
    do 5 eexists. split; [reflexivity|].
    split; [exact Hy0|]. split; [lia|]. split; [lia|]. split; [lia|].
    rewrite Z.add_0_r, inject_Z_mult. change (inject_Z 12) with 12.
    rewrite He0.
    split; [lra|]. split; [lra|]. intro; lra.
Qed.

End Times.

(** X11.  Whenever [calculate] completes, the times it displays are well
    formed: years that are not negative next to months between 0 and 11,
    for the payoff time and for the time saved alike. *)
Theorem displayed_times_well_formed (i : Calculator.inputs)
  (d : Calculator.display) :
  Calculator.calculate i = Calculator.Calculated d ->
  (0 <= Calculator.d_years_to_payoff d)%Z /\
  (0 <= Calculator.d_months_to_payoff d < 12)%Z /\
  (0 <= Calculator.d_years_saved d)%Z /\
  (0 <= Calculator.d_months_saved d < 12)%Z.
Proof.
  intro Hc.
  destruct (calculated_display i d Hc) as (Hvalid & Hpp & times & Ht & ->).
  destruct (validate_inputs_true i Hvalid)
    as (_ & _ & _ & _ & _ & _ & _ & He & _).
  destruct (payoff_times_shape (Proj.loan_amount_of i) (Proj.monthly_rate_of i)
              (Calculator.principal_payment_var i)
              (Proj.annuity_interest_360 (Proj.loan_amount_of i)
                 (Proj.monthly_rate_of i))
              (loan_amount_pos i Hvalid) Hpp _ He)
    as (y & m & ys & ms & s & Ht' & H1 & H2 & H3 & H4 & _).
  rewrite Ht in Ht'. injection Ht' as ->.
  unfold Proj.display_of.
  cbn [Calculator.d_years_to_payoff Calculator.d_months_to_payoff
       Calculator.d_years_saved Calculator.d_months_saved fst snd].
  repeat split; lia.
Qed.

Lemma displayed_times_well_formed_witness :
  exists d,
    Calculator.calculate Ex.brisk = Calculator.Calculated d /\
    (0 <= Calculator.d_years_to_payoff d)%Z /\
    (0 <= Calculator.d_months_to_payoff d < 12)%Z /\
    (0 <= Calculator.d_years_saved d)%Z /\
    (0 <= Calculator.d_months_saved d < 12)%Z.
Proof.
  pose proof (calculate_valid Ex.brisk eq_refl _
                (payoff_times_extra (Proj.loan_amount_of Ex.brisk)
                   (Proj.monthly_rate_of Ex.brisk) 100
                   (Proj.annuity_interest_360 (Proj.loan_amount_of Ex.brisk)
                      (Proj.monthly_rate_of Ex.brisk))
                   eq_refl 100 eq_refl)) as Hc.
  eexists. split; [exact Hc|].
  exact (displayed_times_well_formed Ex.brisk _ Hc).
Defined.



(** ** The chart data *)

Lemma year_loop_lengths (mr pp e fee bp ep : Q) (years : list Z)
  (st : Q * list Q * list Q) :
  length (snd (fst (Calculator.year_loop mr pp e fee bp ep years st)))
  = (length (snd (fst st)) + length years)%nat /\
  length (snd (Calculator.year_loop mr pp e fee bp ep years st))
  = (length (snd st) + length years)%nat.
Proof.
  revert st. induction years as [|y years IH]; intro st.
  - simpl. lia.
  - cbn [Calculator.year_loop].
    match goal with
    | |- context [Calculator.year_loop _ _ _ _ _ _ years ?s] =>
        destruct (IH s) as [H1 H2]
    end.
    rewrite H1, H2. cbn [fst snd]. rewrite !length_app. simpl. lia.
Qed.

(** X13.  The five lists [update_yearly_visualization] hands to the bar
    plot always have the same length, which is [years] or 1 when [years] is
    not above zero. *)
Theorem chart_lists_same_length (loan mr : Q) (years : Z) (pp e fee : Q) :
  let chart := Calculator.update_yearly_visualization loan mr years pp e fee in
  let n := Z.to_nat (Z.max 1 years) in
  length (Calculator.years_range chart) = n /\
  length (Calculator.yearly_base_principal chart) = n /\
  length (Calculator.yearly_extra_principal chart) = n /\
  length (Calculator.yearly_interest chart) = n /\
  length (Calculator.yearly_total chart) = n.
Proof.
  unfold Calculator.update_yearly_visualization. cbv zeta.
  cbn [Calculator.years_range Calculator.yearly_base_principal
       Calculator.yearly_extra_principal Calculator.yearly_interest
       Calculator.yearly_total].
  set (ys := if (0 <? years)%Z then Py.range1 years else Py.range1 1).
  assert (Hys : length ys = Z.to_nat (Z.max 1 years)).
  { subst ys. destruct (0 <? years)%Z eqn:E; rewrite range1_length.
    - apply Z.ltb_lt in E. lia.
    - apply Z.ltb_ge in E. lia. }
  destruct (year_loop_lengths mr pp e fee (pp * 12) (e * 12) ys (loan, [], []))
    as [H1 H2].
  rewrite !repeat_length, H1, H2, Hys. cbn [fst snd length]. repeat split; lia.
Qed.

Section YearlyInterest.

Import Calculator.

Variables mr t : Q.
Hypothesis Hmr : 0 <= mr.
Hypothesis Ht : 0 <= t.

(** The months of a year only add to the interest and only lower the
    balance. *)
Lemma month_loop_grows (ms : list Z) (rb acc : Q) :
  acc <= snd (month_loop mr t ms (rb, acc)) /\
  fst (month_loop mr t ms (rb, acc)) <= rb.
Proof.
  revert rb acc. induction ms as [|m ms IH]; intros rb acc;
    cbn [month_loop fst snd]; [lra|].
  destruct (Qle_bool rb 0) eqn:E; cbn [fst snd]; [lra|].
  apply leb_false in E. destruct (IH (rb - t) (acc + rb * mr)) as [H1 H2].
  assert (0 <= rb * mr) by (apply Qmult_le_0_compat; lra). lra.
Qed.

(** A lower balance at the start of a year accrues less in that year. *)
Lemma month_loop_mono (ms : list Z) (rb1 rb2 a1 a2 : Q) :
  rb2 <= rb1 ->
  snd (month_loop mr t ms (rb2, a2)) - a2
  <= snd (month_loop mr t ms (rb1, a1)) - a1.
Proof.
  revert rb1 rb2 a1 a2. induction ms as [|m ms IH]; intros rb1 rb2 a1 a2 Hb;
    cbn [month_loop fst snd]; [lra|].
  destruct (Qle_bool rb2 0) eqn:E2.
  - cbn [snd].
    pose proof (month_loop_grows (m :: ms) rb1 a1) as [H _].
    cbn [month_loop fst snd] in H. lra.
  - apply leb_false in E2.
    assert (E1 : Qle_bool rb1 0 = false) by (apply leb_false; lra).
    rewrite E1.
    specialize (IH (rb1 - t) (rb2 - t) (a1 + rb1 * mr) (a2 + rb2 * mr)
                  ltac:(lra)).
    assert (rb2 * mr <= rb1 * mr) by (apply Qmult_le_compat_r; lra).
    lra.
Qed.

End YearlyInterest.

Lemma year_loop_interest_falls (mr pp e fee bp ep : Q) (years : list Z)
  (bound : Q) (st : Q * list Q * list Q) :
  0 <= mr -> 0 <= pp + e ->
  Sched.non_increasing (bound :: snd (fst st)) ->
  snd (Calculator.month_loop mr (pp + e) (Py.range 12) (fst (fst st), 0))
  <= last (bound :: snd (fst st)) bound ->
  Sched.non_increasing
    (bound :: snd (fst (Calculator.year_loop mr pp e fee bp ep years st))).
Proof.
  intros Hmr Ht. revert st.
  induction years as [|y years IH]; intros st Hni Hlast; [exact Hni|].
  cbn [Calculator.year_loop].
  apply IH; cbn [fst snd].
  - apply (non_increasing_snoc bound (snd (fst st))); assumption.
  - rewrite last_snoc_cons.
    pose proof (month_loop_grows mr (pp + e) Hmr Ht (Py.range 12)
                  (fst (fst st)) 0) as [_ Hb].
    pose proof (month_loop_mono mr (pp + e) Hmr Ht (Py.range 12) (fst (fst st))
                  (fst (Calculator.month_loop mr (pp + e) (Py.range 12)
                          (fst (fst st), 0)))
                  0 0 Hb).
    lra.
Qed.

(** X14.  With a monthly rate and payments that are not negative, the
    yearly interest of the breakdown never rises from one year to the
    next. *)
Theorem yearly_interest_never_rises (loan mr : Q) (years : Z) (pp e fee : Q) :
  0 <= mr -> 0 <= pp -> 0 <= e ->
  Sched.non_increasing
    (Calculator.yearly_interest
       (Calculator.update_yearly_visualization loan mr years pp e fee)).
Proof.
  intros Hmr Hpp He.
  unfold Calculator.update_yearly_visualization. cbv zeta.
  cbn [Calculator.yearly_interest].
  set (ys := if (0 <? years)%Z then Py.range1 years else Py.range1 1).
  set (bound := snd (Calculator.month_loop mr (pp + e) (Py.range 12) (loan, 0))).
  pose proof (year_loop_interest_falls mr pp e fee (pp * 12) (e * 12) ys
                bound (loan, [], []) Hmr ltac:(lra) I
                ltac:(cbn [fst snd last]; unfold bound; lra))
    as H.
  destruct (snd (fst (Calculator.year_loop mr pp e fee (pp * 12) (e * 12) ys
                        (loan, [], [])))) as [|x l]; [exact I|].
  exact (proj2 H).
Qed.

Lemma yearly_interest_never_rises_witness :
  Sched.non_increasing
    (Calculator.yearly_interest
       (Calculator.update_yearly_visualization 1200 (1 # 100) 3 30 10 5)).
Proof.
  apply (yearly_interest_never_rises 1200 (1 # 100) 3 30 10 5);
    discriminate.
Defined.


(** ** The displayed interest figures *)




(** * Properties of get_float_value *)

Section Cleaning.

Import Text.

Open Scope char_scope.

Lemma space_not_digit (c : ascii) : isspace c = true -> isdigit c = false.
Proof.
  destruct c as [[] [] [] [] [] [] [] []]; intro H;
    try reflexivity; discriminate H.
Qed.

Lemma space_not_mark (c : ascii) :
  isspace c = true ->
  Ascii.eqb c "k" = false /\ Ascii.eqb c "$" = false /\
  Ascii.eqb c "," = false /\ Ascii.eqb c "." = false.
Proof.
  destruct c as [[] [] [] [] [] [] [] []]; intro H;
    try (repeat split; reflexivity); discriminate H.
Qed.

(** *** What each step keeps *)

(** [replace_kr] by induction on the length, since it looks two characters
    ahead. *)
Lemma replace_kr_ind (P : list ascii -> list ascii -> Prop) :
  P [] [] ->
  (forall c, P [c] [c]) ->
  (forall c1 c2 tl,
     Ascii.eqb c1 "k" && Ascii.eqb c2 "r" = true ->
     P tl (replace_kr tl) -> P (c1 :: c2 :: tl) (replace_kr tl)) ->
  (forall c1 c2 tl,
     Ascii.eqb c1 "k" && Ascii.eqb c2 "r" = false ->
     P (c2 :: tl) (replace_kr (c2 :: tl)) ->
     P (c1 :: c2 :: tl) (c1 :: replace_kr (c2 :: tl))) ->
  forall s, P s (replace_kr s).
Proof.
  intros H0 H1 Hkr Hno s.
  assert (H : forall n s, (length s <= n)%nat -> P s (replace_kr s)).
  { clear s. induction n as [|n IH]; intros s Hlen.
    - destruct s; [exact H0 | simpl in Hlen; lia].
    - destruct s as [|c1 [|c2 tl]]; [exact H0 | exact (H1 c1) |].
      cbn [replace_kr].
      destruct (Ascii.eqb c1 "k" && Ascii.eqb c2 "r") eqn:E.
      + apply Hkr; [exact E|]. apply IH. simpl in Hlen. lia.
      + apply Hno; [exact E|]. apply IH. simpl in Hlen |- *. lia. }
  exact (H (length s) s (le_n _)).
Qed.

Lemma replace_kr_digits (s : list ascii) :
  filter isdigit (replace_kr s) = filter isdigit s.
Proof.
  apply (replace_kr_ind
           (fun s out => filter isdigit out = filter isdigit s)).
  - reflexivity.
  - reflexivity.
  - intros c1 c2 tl E IH. apply andb_prop in E. destruct E as [E1 E2].
    apply Ascii.eqb_eq in E1, E2. subst. cbn [filter isdigit].
    exact IH.
  - intros c1 c2 tl _ IH.
    change (filter isdigit (c1 :: replace_kr (c2 :: tl)))
      with (if isdigit c1 then c1 :: filter isdigit (replace_kr (c2 :: tl))
            else filter isdigit (replace_kr (c2 :: tl))).
    change (filter isdigit (c1 :: c2 :: tl))
      with (if isdigit c1 then c1 :: filter isdigit (c2 :: tl)
            else filter isdigit (c2 :: tl)).
    now rewrite IH.
Qed.

Lemma replace_kr_blank (s : list ascii) :
  Forall (fun c => isspace c = true) s -> replace_kr s = s.
Proof.
  apply (replace_kr_ind
           (fun s out => Forall (fun c => isspace c = true) s -> out = s)).
  - reflexivity.
  - reflexivity.
  - intros c1 c2 tl E _ H. inversion H as [|? ? Hc1 _]; subst.
    apply andb_prop in E. destruct E as [E1 _].
    destruct (space_not_mark c1 Hc1) as (Hk & _). congruence.
  - intros c1 c2 tl _ IH H. inversion H; subst. f_equal. now apply IH.
Qed.

Lemma filter_sub {A : Type} (p q : A -> bool) (l : list A) :
  (forall x, p x = true -> q x = true) ->
  filter p (filter q l) = filter p l.
Proof.
  intro H. induction l as [|x l IH]; [reflexivity|]. cbn [filter].
  destruct (q x) eqn:Eq; cbn [filter].
  - now rewrite IH.
  - destruct (p x) eqn:Ep; [|exact IH]. rewrite (H x Ep) in Eq. discriminate.
Qed.

Lemma remove_char_digits (c : ascii) (s : list ascii) :
  isdigit c = false ->
  filter isdigit (remove_char c s) = filter isdigit s.
Proof.
  intro Hc. unfold remove_char. apply filter_sub.
  intros x Hx. apply negb_true_iff. apply Ascii.eqb_neq. intros ->. congruence.
Qed.

Lemma lstrip_digits (s : list ascii) :
  filter isdigit (lstrip s) = filter isdigit s.
Proof.
  induction s as [|c s IH]; [reflexivity|]. cbn [lstrip].
  destruct (isspace c) eqn:E; [|reflexivity].
  cbn [filter]. now rewrite (space_not_digit c E).
Qed.

Lemma strip_digits (s : list ascii) :
  filter isdigit (strip s) = filter isdigit s.
Proof.
  unfold strip.
  rewrite filter_rev, lstrip_digits, filter_rev, rev_involutive.
  apply lstrip_digits.
Qed.

Lemma comma_to_period_digits (s : list ascii) :
  filter isdigit (comma_to_period s) = filter isdigit s.
Proof.
  unfold comma_to_period. induction s as [|c s IH]; [reflexivity|].
  cbn [map filter]. destruct (Ascii.eqb_spec c ",") as [->|_].
  - cbn [isdigit]. exact IH.
  - now rewrite IH.
Qed.

End Cleaning.

(** X17.  The cleaning of [get_float_value] never loses, adds or reorders a
    digit: the digits of the string handed to [float] are the digits of the
    field, in the same order. *)
Theorem cleaning_keeps_digits (value_str : list ascii) :
  filter Text.isdigit (Text.cleaned value_str)
  = filter Text.isdigit value_str.
Proof.
  unfold Text.cleaned. cbv zeta.
  set (c := Text.comma_to_period
              (Text.strip (Text.remove_char "$" (Text.replace_kr value_str)))).
  assert (Hc : filter Text.isdigit c = filter Text.isdigit value_str).
  { unfold c.
    rewrite comma_to_period_digits, strip_digits, remove_char_digits
      by reflexivity.
    apply replace_kr_digits. }
  destruct (1 <? Text.count "." c)%Z; [|exact Hc].
  unfold Text.upto, Text.from.
  rewrite filter_app, remove_char_digits by reflexivity.
  rewrite <- filter_app, firstn_skipn. exact Hc.
Qed.


Lemma lstrip_blank (s : list ascii) :
  Forall (fun c => Text.isspace c = true) s -> Text.lstrip s = [].
Proof.
  induction 1 as [|c s Hc _ IH]; [reflexivity|].
  cbn [Text.lstrip]. now rewrite Hc.
Qed.

(** X18.  A field that is empty or holds only white space reads as 0:
    [get_float_value] returns 0.0 without calling [float], so it cannot
    raise. *)
Theorem blank_field_reads_zero (float : list ascii -> option Q)
  (value_str : list ascii) :
  Forall (fun c => Text.isspace c = true) value_str ->
  Text.get_float_value float value_str = Some 0.
Proof.
  intro Hblank.
  assert (Hc : Text.cleaned value_str = []).
  { unfold Text.cleaned. cbv zeta.
    rewrite (replace_kr_blank value_str Hblank).
    assert (Hr : Text.remove_char "$" value_str = value_str).
    { unfold Text.remove_char. apply forallb_filter_id.
      apply forallb_forall. intros x Hx.
      rewrite Forall_forall in Hblank.
      destruct (space_not_mark x (Hblank x Hx)) as (_ & Hd & _).
      now rewrite Hd. }
    rewrite Hr. unfold Text.strip.
    rewrite (lstrip_blank value_str Hblank). reflexivity. }
  unfold Text.get_float_value. now rewrite Hc.
Qed.

Lemma blank_field_reads_zero_witness :
  Text.get_float_value (fun _ => None) [" "; "009"; " "]%char = Some 0.
Proof.
  apply (blank_field_reads_zero (fun _ => None) [" "; "009"; " "]%char).
  repeat constructor.
Defined.

(** *** The shape of the cleaned string *)

Section Shape.

Import Text.

Variable P : ascii -> Prop.

Lemma lstrip_Forall (s : list ascii) : Forall P s -> Forall P (lstrip s).
Proof.
  induction 1 as [|c s Hc Hs IH]; [constructor|].
  cbn [lstrip]. destruct (isspace c); [exact IH | now constructor].
Qed.

Lemma strip_Forall (s : list ascii) : Forall P s -> Forall P (strip s).
Proof.
  intro H. unfold strip.
  apply Forall_rev, lstrip_Forall, Forall_rev, lstrip_Forall, H.
Qed.

Lemma filter_Forall (p : ascii -> bool) (s : list ascii) :
  Forall P s -> Forall P (filter p s).
Proof.
  induction 1 as [|c s Hc Hs IH]; [constructor|].
  cbn [filter]. destruct (p c); [now constructor | exact IH].
Qed.

Lemma firstn_Forall (n : nat) (s : list ascii) :
  Forall P s -> Forall P (firstn n s).
Proof.
  intro H. revert n. induction H as [|c s Hc Hs IH]; intros [|n];
    cbn [firstn]; try constructor; [exact Hc | apply IH].
Qed.

Lemma skipn_Forall (n : nat) (s : list ascii) :
  Forall P s -> Forall P (skipn n s).
Proof.
  intro H. revert n. induction H as [|c s Hc Hs IH]; intros [|n];
    cbn [skipn]; [constructor | constructor | now constructor | apply IH].
Qed.

(** Once the commas are periods, what holds of every character still
    holds after the surplus periods are dropped. *)
Lemma dedupe_Forall (s : list ascii) :
  Forall P s ->
  Forall P
    (if (1 <? count "." s)%Z then
       upto (find "." s + 1) s ++ remove_char "." (from (find "." s + 1) s)
     else s).
Proof.
  intro H. destruct (1 <? count "." s)%Z; [|exact H].
  apply Forall_app. split.
  - now apply firstn_Forall.
  - now apply filter_Forall, skipn_Forall.
Qed.

End Shape.

Lemma count_zero (c : ascii) (s : list ascii) :
  Forall (fun x => x <> c) s -> Text.count c s = 0%Z.
Proof.
  intro H. unfold Text.count.
  induction H as [|x s Hx _ IH]; [reflexivity|].
  cbn [filter]. destruct (Ascii.eqb_spec c x) as [->|_];
    [contradiction | exact IH].
Qed.

Lemma find_bounds (c : ascii) (s : list ascii) : (-1 <= Text.find c s)%Z.
Proof.
  induction s as [|x s IH]; cbn [Text.find]; [lia|].
  destruct (Ascii.eqb x c); [lia|].
  destruct (Text.find c s <? 0)%Z eqn:E; [lia|]. apply Z.ltb_ge in E. lia.
Qed.

(** Up to and including the first occurrence there is at most one. *)
Lemma count_upto_find (c : ascii) (s : list ascii) :
  (Text.count c (Text.upto (Text.find c s + 1) s) <= 1)%Z.
Proof.
  unfold Text.count, Text.upto.
  induction s as [|x s IH]; cbn [Text.find].
  - cbn. lia.
  - destruct (Ascii.eqb_spec x c) as [->|Hx].
    + change (Z.to_nat (0 + 1)) with 1%nat. cbn [firstn filter].
      destruct (Ascii.eqb c c); cbn [length]; lia.
    + pose proof (find_bounds c s) as Hb.
      destruct (Text.find c s <? 0)%Z eqn:E.
      * cbn. lia.
      * apply Z.ltb_ge in E.
        replace (Z.to_nat (Text.find c s + 1 + 1))
          with (S (Z.to_nat (Text.find c s + 1))) by lia.
        cbn [firstn filter].
        destruct (Ascii.eqb_spec c x) as [->|_]; [contradiction | exact IH].
Qed.

(** X19.  The string [get_float_value] hands to [float] never holds a
    comma or a dollar sign, and holds at most one period: commas count as
    periods and every period after the first is dropped. *)
Theorem cleaned_shape (value_str : list ascii) :
  Text.count "," (Text.cleaned value_str) = 0%Z /\
  Text.count "$" (Text.cleaned value_str) = 0%Z /\
  (Text.count "." (Text.cleaned value_str) <= 1)%Z.
Proof.
  unfold Text.cleaned. cbv zeta.
  set (raw := Text.strip (Text.remove_char "$" (Text.replace_kr value_str))).
  set (c := Text.comma_to_period raw).
  assert (Hdollar : Forall (fun x => x <> "$"%char) c).
  { unfold c, Text.comma_to_period. apply Forall_map.
    assert (Hraw : Forall (fun x => x <> "$"%char) raw).
    { unfold raw. apply strip_Forall. unfold Text.remove_char.
      apply Forall_forall. intros x Hx. apply filter_In in Hx.
      destruct Hx as [_ Hx]. apply negb_true_iff in Hx.
      now apply Ascii.eqb_neq. }
    eapply Forall_impl; [|exact Hraw]. intros x Hx. cbv beta.
    destruct (Ascii.eqb x ","); [discriminate | exact Hx]. }
  assert (Hcomma : Forall (fun x => x <> ","%char) c).
  { unfold c, Text.comma_to_period. apply Forall_map.
    apply Forall_forall. intros x _.
    destruct (Ascii.eqb_spec x ","); [discriminate | assumption]. }
  split; [|split].
  - apply count_zero, dedupe_Forall, Hcomma.
  - apply count_zero, dedupe_Forall, Hdollar.
  - destruct (1 <? Text.count "." c)%Z eqn:E.
    + unfold Text.count. rewrite filter_app, length_app, Nat2Z.inj_add.
      pose proof (count_upto_find "." c) as H1.
      assert (H2 : Text.count "."
                     (Text.remove_char "." (Text.from (Text.find "." c + 1) c))
                   = 0%Z).
      { apply count_zero. unfold Text.remove_char.
        apply Forall_forall. intros x Hx. apply filter_In in Hx.
        destruct Hx as [_ Hx]. apply negb_true_iff in Hx.
        now apply Ascii.eqb_neq. }
      unfold Text.count in H1, H2. lia.
    + apply Z.ltb_ge in E. exact E.
Qed.


(** ** The down-payment field in automatic mode *)

(** X20.  In automatic mode the result of [calculate] does not depend on
    the down-payment field: two inputs that pass validation and differ only
    in that field give the same outcome, computed from 15 % of the amount
    sought. *)
Theorem auto_mode_ignores_down_payment (i : Calculator.inputs) (dp : Q) :
  Calculator.down_payment_mode i = Calculator.Auto ->
  Calculator.validate_inputs i = true ->
  Calculator.validate_inputs (Notion.with_down_payment i dp) = true ->
  Calculator.calculate (Notion.with_down_payment i dp) = Calculator.calculate i /\
  forall d,
    Calculator.calculate i = Calculator.Calculated d ->
    Calculator.d_loan_amount d
    = Calculator.loan_seeking_var i - Calculator.loan_seeking_var i * (15 # 100).
Proof.
  intros Hmode Hv Hv'. split.
  - unfold Calculator.calculate. rewrite Hv, Hv'. cbn [negb].
    rewrite (calculate_try_valid i Hv), (calculate_try_valid _ Hv').
    unfold Proj.display_of, Proj.loan_amount_of, Proj.monthly_rate_of,
      Notion.with_down_payment.
    cbn [Calculator.down_payment_mode Calculator.loan_seeking_var
         Calculator.interest_rate_var Calculator.principal_payment_var
         Calculator.extra_payment_var Calculator.monthly_fee_var].
    rewrite Hmode. reflexivity.
  - intros d Hc. destruct (calculated_display i d Hc) as (_ & _ & t & _ & ->).
    unfold Proj.display_of, Proj.loan_amount_of.
    cbn [Calculator.d_loan_amount]. now rewrite Hmode.
Qed.

Lemma auto_mode_ignores_down_payment_witness :
  Calculator.calculate
    (Notion.with_down_payment
       (Calculator.mk_inputs 1200 0 Calculator.Auto 12 100 100 0) 500)
  = Calculator.calculate
      (Calculator.mk_inputs 1200 0 Calculator.Auto 12 100 100 0).
Proof.
  apply (auto_mode_ignores_down_payment
           (Calculator.mk_inputs 1200 0 Calculator.Auto 12 100 100 0) 500);
    reflexivity.
Defined.
